(** * Fixed-width file node: schema construction and option handling

    A shallow embedding of [getFields] (GenericFunctions.ts) and of the
    option preparation done at the top of [FixedWidthFile.execute]
    (FixedWidthFile.node.ts), together with the JavaScript built-ins the
    two rely on ([Boolean], [Number], [parseInt], [parseFloat], [||],
    [===], property access, [Array.prototype.map]).

    JavaScript strings are sequences of UTF-16 code units; they are modelled
    as lists of code units so that every string the code can receive is
    covered (the white space that [parseInt], [parseFloat] and [Number] skip
    lies partly outside Latin-1).

    [getFields] is given twice: over configuration trees, which is the
    model most statements are about, and over a store of cells with
    identity ([Store.getFields]), where it can be said that a call writes to
    nothing that existed before.  [getFields_refines] relates the two. *)

From Stdlib Require Import List NArith ZArith Bool Lia.
From Stdlib Require Import Ascii String.
Import ListNotations.

Set Implicit Arguments.
Set Warnings "-register-all".

Local Open Scope N_scope.
Local Open Scope list_scope.

(** ** Strings *)

Definition code_unit := N.
Definition jsstring := list code_unit.

(** [lit "abc"] is the JavaScript string literal ['abc']. *)
Definition lit (s : string) : jsstring :=
  List.map N_of_ascii (list_ascii_of_string s).

Fixpoint str_eqb (s t : jsstring) : bool :=
  match s, t with
  | [], [] => true
  | c :: s', d :: t' => (c =? d) && str_eqb s' t'
  | _, _ => false
  end.

Fixpoint span (p : code_unit -> bool) (s : jsstring) : jsstring * jsstring :=
  match s with
  | [] => ([], [])
  | c :: r =>
      if p c then let (a, b) := span p r in (c :: a, b) else ([], s)
  end.

Fixpoint starts_with (pre s : jsstring) : option jsstring :=
  match pre, s with
  | [], _ => Some s
  | c :: pre', d :: s' => if c =? d then starts_with pre' s' else None
  | _ :: _, [] => None
  end.

(** WhiteSpace and LineTerminator code points (ECMA-262, StrWhiteSpaceChar;
    the same set is removed by TrimString). *)
Definition isWhiteSpace (c : code_unit) : bool :=
  (c =? 9) || (c =? 10) || (c =? 11) || (c =? 12) || (c =? 13) || (c =? 32)
  || (c =? 160) || (c =? 5760) || ((8192 <=? c) && (c <=? 8202))
  || (c =? 8232) || (c =? 8233) || (c =? 8239) || (c =? 8287)
  || (c =? 12288) || (c =? 65279).

Definition isDecimalDigit (c : code_unit) : bool := (48 <=? c) && (c <=? 57).
Definition isBinaryDigit (c : code_unit) : bool := (c =? 48) || (c =? 49).
Definition isOctalDigit (c : code_unit) : bool := (48 <=? c) && (c <=? 55).
Definition isHexDigit (c : code_unit) : bool :=
  isDecimalDigit c || ((65 <=? c) && (c <=? 70)) || ((97 <=? c) && (c <=? 102)).

Definition digitValue (c : code_unit) : N :=
  if isDecimalDigit c then c - 48
  else if (97 <=? c) then c - 87
  else c - 55.

Definition digitsValue (radix : N) (ds : jsstring) : N :=
  fold_left (fun acc d => radix * acc + digitValue d) ds 0.

Fixpoint trimStart (s : jsstring) : jsstring :=
  match s with
  | [] => []
  | c :: r => if isWhiteSpace c then trimStart r else s
  end.

Definition trimEnd (s : jsstring) : jsstring := rev (trimStart (rev s)).
Definition TrimString (s : jsstring) : jsstring := trimEnd (trimStart s).

(** ** Numbers

    A Number is NaN, an infinity, or a finite value.  A finite value is kept
    as sign, decimal mantissa and decimal exponent ([mantissa * 10^exp10]),
    which represents every double exactly.  For the result of a numeric parse
    the triple is the mathematical value of the numeral; ECMAScript rounds
    it to the nearest double, a step that never yields NaN and that nothing
    below depends on. *)

Inductive number : Type :=
| NaN
| Infinity (neg : bool)
| Finite (neg : bool) (mantissa : N) (exp10 : Z).

(** ** Values *)

(** The closures that [getFields] creates capture nothing, so a closure is
    identified by the arrow function it was created from. *)
Inductive cast_fn : Type :=
| CastNumber    (* (v: string) => Number(v) *)
| CastInteger   (* (v: string) => parseInt(v, 10) *)
| CastFloat     (* (v: string) => parseFloat(v) *)
| CastBoolean.  (* (v: string) => Boolean(v) *)

(** The values an [IDataObject] holds (JSON-like data), plus functions. *)
Inductive value : Type :=
| VUndefined
| VNull
| VBool (b : bool)
| VNumber (n : number)
| VString (s : jsstring)
| VArray (elems : list value)
| VObject (props : list (jsstring * value))
| VFunction (f : cast_fn).

Definition object := list (jsstring * value).

Inductive error : Type :=
| TypeError.

Inductive completion (A : Type) : Type :=
| Normal (a : A)
| Throw (e : error).

Arguments Normal {A} a.
Arguments Throw {A} e.

Definition bind {A B} (m : completion A) (k : A -> completion B) : completion B :=
  match m with
  | Normal a => k a
  | Throw e => Throw e
  end.

Declare Scope completion_scope.
Delimit Scope completion_scope with completion.

Notation "x <- m ;; k" := (bind m (fun x => k))
  (at level 61, m at next level, right associativity) : completion_scope.

Local Open Scope completion_scope.

Fixpoint mapM {A B} (f : A -> completion B) (l : list A) : completion (list B) :=
  match l with
  | [] => Normal []
  | a :: r => b <- f a ;; bs <- mapM f r ;; Normal (b :: bs)
  end.

(** ToBoolean. *)
Definition ToBoolean (v : value) : bool :=
  match v with
  | VUndefined | VNull => false
  | VBool b => b
  | VNumber NaN => false
  | VNumber (Infinity _) => true
  | VNumber (Finite _ m _) => negb (m =? 0)
  | VString s => match s with [] => false | _ :: _ => true end
  | VArray _ | VObject _ | VFunction _ => true
  end.

(** [a || b]; [b] is a thunk because the right operand is evaluated only when
    the left one is falsy. *)
Definition js_or (a : value) (b : unit -> value) : value :=
  if ToBoolean a then a else b tt.

(** [v === 'literal']. *)
Definition strict_eq_str (v : value) (s : jsstring) : bool :=
  match v with
  | VString t => str_eqb t s
  | _ => false
  end.

Fixpoint lookup (k : jsstring) (o : object) : option value :=
  match o with
  | [] => None
  | (k', v) :: r => if str_eqb k' k then Some v else lookup k r
  end.

(** [o.k] on an object: an absent key reads as [undefined]. *)
Definition get (o : object) (k : jsstring) : value :=
  match lookup k o with
  | Some v => v
  | None => VUndefined
  end.

(** [v.k] for one of the keys this code reads ([field], [property], [width],
    [align], [dataType], [trim], [pad]): none of them is defined on a
    built-in prototype, so on a primitive, an array or a function the read
    gives [undefined]; on [undefined] and [null] it throws. *)
Definition GetV (v : value) (k : jsstring) : completion value :=
  match v with
  | VUndefined | VNull => Throw TypeError
  | VObject o => Normal (get o k)
  | _ => Normal VUndefined
  end.

(** [o[k] = v]: an existing key keeps its position, a new one is appended. *)
Fixpoint set (k : jsstring) (v : value) (o : object) : object :=
  match o with
  | [] => [(k, v)]
  | (k', v') :: r =>
      if str_eqb k' k then (k', v) :: r else (k', v') :: set k v r
  end.

(** [{...o}]: a new object with the own properties of [o], in order. *)
Definition spread (o : object) : object := o.

(** ** Numeric built-ins *)

(** Optional sign in front of a numeral: [-] gives a negative sign, [+] or
    [-] is consumed. *)
Definition strip_sign (s : jsstring) : bool * jsstring :=
  match s with
  | c :: r =>
      if c =? 45 then (true, r)
      else if c =? 43 then (false, r)
      else (false, s)
  | [] => (false, [])
  end.

(** [parseInt(v, 10)]: leading white space is skipped, a sign is read, and
    the longest run of decimal digits is the numeral; without a digit the
    result is NaN.  What follows the digits is ignored. *)
Definition parseInt10 (v : jsstring) : number :=
  let S := trimStart v in
  let (neg, S1) := strip_sign S in
  let (Z, _) := span isDecimalDigit S1 in
  match Z with
  | [] => NaN
  | _ :: _ => Finite neg (digitsValue 10 Z) 0
  end.

(** ExponentPart, when one is present at the head of [s]: its value and the
    rest; otherwise exponent 0 and [s] untouched. *)
Definition scanExponent (s : jsstring) : Z * jsstring :=
  match s with
  | c :: r =>
      if (c =? 101) || (c =? 69) then
        let (eneg, r1) := strip_sign r in
        let (ds, r2) := span isDecimalDigit r1 in
        match ds with
        | [] => (0%Z, s)
        | _ :: _ =>
            let e := Z.of_N (digitsValue 10 ds) in
            ((if eneg then (- e)%Z else e), r2)
        end
      else (0%Z, s)
  | [] => (0%Z, [])
  end.

(** The digits and exponent of a decimal numeral after its integer part
    [ip]: [r1] is what follows [ip]. *)
Definition scanFraction (neg : bool) (ip r1 : jsstring)
  : option (number * jsstring) :=
  let (fp, r3) := span isDecimalDigit r1 in
  match ip ++ fp with
  | [] => None
  | _ :: _ =>
      let (e, r4) := scanExponent r3 in
      Some (Finite neg (digitsValue 10 (ip ++ fp))
              (e - Z.of_nat (List.length fp)), r4)
  end.

Definition scanInteger (neg : bool) (ip r1 : jsstring)
  : option (number * jsstring) :=
  match ip with
  | [] => None
  | _ :: _ =>
      let (e, r4) := scanExponent r1 in
      Some (Finite neg (digitsValue 10 ip) e, r4)
  end.

(** The longest prefix of [s] that is a StrUnsignedDecimalLiteral. *)
Definition scanUnsignedDecimal (neg : bool) (s : jsstring)
  : option (number * jsstring) :=
  match starts_with (lit "Infinity") s with
  | Some r => Some (Infinity neg, r)
  | None =>
      let (ip, r1) := span isDecimalDigit s in
      match r1 with
      | c :: r2 =>
          if c =? 46 then scanFraction neg ip r2 else scanInteger neg ip r1
      | [] => scanInteger neg ip r1
      end
  end.

(** The longest prefix of [s] that is a StrDecimalLiteral. *)
Definition scanStrDecimalLiteral (s : jsstring) : option (number * jsstring) :=
  let (neg, s1) := strip_sign s in
  scanUnsignedDecimal neg s1.

(** [parseFloat(v)]. *)
Definition parseFloat (v : jsstring) : number :=
  match scanStrDecimalLiteral (trimStart v) with
  | Some (n, _) => n
  | None => NaN
  end.

(** [0b], [0o] and [0x] literals: the whole of [s] has to be one. *)
Definition scanNonDecimal (s : jsstring) : option number :=
  match s with
  | z :: p :: body =>
      if negb (z =? 48) then None
      else match body with
      | [] => None
      | _ :: _ =>
          if ((p =? 98) || (p =? 66)) && forallb isBinaryDigit body
          then Some (Finite false (digitsValue 2 body) 0)
          else if ((p =? 111) || (p =? 79)) && forallb isOctalDigit body
          then Some (Finite false (digitsValue 8 body) 0)
          else if ((p =? 120) || (p =? 88)) && forallb isHexDigit body
          then Some (Finite false (digitsValue 16 body) 0)
          else None
      end
  | _ => None
  end.

(** [Number(v)] on a string (StringToNumber): white space around the numeral
    is dropped, the empty string is 0, and the rest has to be a numeral from
    its first to its last code unit. *)
Definition StringToNumber (v : jsstring) : number :=
  let s := TrimString v in
  match s with
  | [] => Finite false 0 0
  | _ :: _ =>
      match scanNonDecimal s with
      | Some n => n
      | None =>
          match scanStrDecimalLiteral s with
          | Some (n, []) => n
          | _ => NaN
          end
      end
  end.

(** Calling a cast closure on the text of a column. *)
Definition apply_cast (c : cast_fn) (v : jsstring) : completion value :=
  match c with
  | CastNumber => Normal (VNumber (StringToNumber v))
  | CastInteger => Normal (VNumber (parseInt10 v))
  | CastFloat => Normal (VNumber (parseFloat v))
  | CastBoolean => Normal (VBool (ToBoolean (VString v)))
  end.

(** ** GenericFunctions.ts: [getFields] *)

(** The [Field] of the fixed-width library, as [getFields] fills it.  The
    [as string] and [as number] casts are erased at run time, so [property],
    [width] and [align] hold whatever the configuration holds; an unset
    [cast] is [None]. *)
Record Field : Type := mkField {
  property : value;
  width : value;
  cast : option cast_fn;
  align : value;
}.

(** The [switch (dataType)] of the ['fromFile'] branch. *)
Definition select_cast (dataType : value) : option cast_fn :=
  if strict_eq_str dataType (lit "number") then Some CastNumber
  else if strict_eq_str dataType (lit "integer") then Some CastInteger
  else if strict_eq_str dataType (lit "float") then Some CastFloat
  else if strict_eq_str dataType (lit "boolean") then Some CastBoolean
  else None.

(** The callback given to [rawFields.map]; destructuring its parameter
    throws on [undefined] and [null]. *)
Definition buildField (operation : jsstring) (entry : value) : completion Field :=
  property <- GetV entry (lit "property") ;;
  width <- GetV entry (lit "width") ;;
  alignRaw <- GetV entry (lit "align") ;;
  dataType <- GetV entry (lit "dataType") ;;
  let cast :=
    if str_eqb operation (lit "fromFile") then select_cast dataType else None in
  let align :=
    if str_eqb operation (lit "fromFile") then VUndefined
    else if str_eqb operation (lit "toFile") then alignRaw
    else VUndefined in
  Normal (mkField property width cast align).

(** [rawFields.map(cb)]: only an array has a [map] method. *)
Definition array_map {B} (cb : value -> completion B) (a : value)
  : completion (list B) :=
  match a with
  | VArray elems => mapM cb elems
  | _ => Throw TypeError
  end.

Definition getFields (operation : jsstring) (fieldConfig : value)
  : completion (list Field) :=
  base <- Normal (js_or fieldConfig (fun _ => VObject [])) ;;
  field <- GetV base (lit "field") ;;
  let rawFields := js_or field (fun _ => VArray []) in
  array_map (buildField operation) rawFields.

(** ** FixedWidthFile.node.ts: option preparation in [execute] *)

(** [const pad = options.pad ? options.pad as string : ' ']. *)
Definition pad (options : object) : value :=
  if ToBoolean (get options (lit "pad")) then get options (lit "pad")
  else VString (lit " ").

(** [['left', 'right'].includes(x)]. *)
Definition includes_left_right (x : value) : bool :=
  strict_eq_str x (lit "left") || strict_eq_str x (lit "right").

Definition is_string (v : value) : bool :=
  match v with VString _ => true | _ => false end.

(** [let trim = true; if ... else if ... else if ...]. *)
Definition trim (options : object) : value :=
  let t := get options (lit "trim") in
  if strict_eq_str t (lit "both") then VBool true
  else if strict_eq_str t (lit "none") then VBool false
  else if is_string t && includes_left_right t then t
  else VBool true.

Definition field_object (f : Field) : value :=
  VObject [ (lit "property", property f);
            (lit "width", width f);
            (lit "cast", match cast f with
                         | Some c => VFunction c
                         | None => VUndefined
                         end);
            (lit "align", align f) ].

(** [{ ...options, trim, fields }], the argument of [parse]. *)
Definition parserOptions (options : object) (fields : list Field) : object :=
  set (lit "fields") (VArray (List.map field_object fields))
    (set (lit "trim") (trim options) (spread options)).

(** [{ ...options, encoding, pad, trim, fields }], the argument of
    [stringify]; [encoding] is [options.encoding || 'utf8']. *)
Definition stringifyOptions (options : object) (fields : list Field) : object :=
  let encoding := js_or (get options (lit "encoding"))
                        (fun _ => VString (lit "utf8")) in
  set (lit "fields") (VArray (List.map field_object fields))
    (set (lit "trim") (trim options)
      (set (lit "pad") (pad options)
        (set (lit "encoding") encoding (spread options)))).

(** ** Vocabulary of the specification *)

(** The configuration object [{ field: entries }]. *)
Definition fieldConfig_of (entries : list value) : value :=
  VObject [(lit "field", VArray entries)].

Definition negative_width (w : value) : bool :=
  match w with
  | VNumber (Finite true m _) => negb (m =? 0)
  | VNumber (Infinity true) => true
  | _ => false
  end.

Definition empty_or_missing (p : value) : bool :=
  match p with
  | VUndefined | VNull => true
  | VString [] => true
  | _ => false
  end.

(** A raw field entry that the specification calls invalid. *)
Definition invalid_entry (o : object) : bool :=
  negative_width (get o (lit "width"))
  || empty_or_missing (get o (lit "property")).

(** The [Field] that the callback of [getFields] builds from an entry that
    is an object. *)
Definition field_of_entry (operation : jsstring) (o : object) : Field :=
  mkField (get o (lit "property")) (get o (lit "width"))
    (if str_eqb operation (lit "fromFile")
     then select_cast (get o (lit "dataType")) else None)
    (if str_eqb operation (lit "fromFile") then VUndefined
     else if str_eqb operation (lit "toFile") then get o (lit "align")
     else VUndefined).

(** The cast table of the specification: which cast a data type selects. *)
Definition cast_table (dataType : value) (c : option cast_fn) : Prop :=
  (dataType = VString (lit "number") /\ c = Some CastNumber)
  \/ (dataType = VString (lit "integer") /\ c = Some CastInteger)
  \/ (dataType = VString (lit "float") /\ c = Some CastFloat)
  \/ (dataType = VString (lit "boolean") /\ c = Some CastBoolean)
  \/ (dataType <> VString (lit "number")
      /\ dataType <> VString (lit "integer")
      /\ dataType <> VString (lit "float")
      /\ dataType <> VString (lit "boolean")
      /\ c = None).

(** [n] times the digit 0. *)
Definition zeros (n : nat) : jsstring := repeat 48 n.

(** [undefined] and [null], which cannot be destructured. *)
Definition nullish (v : value) : Prop := v = VUndefined \/ v = VNull.

(** Has the configuration a [field] that is an array? *)
Definition has_field_array (fieldConfig : value) : bool :=
  match fieldConfig with
  | VObject o =>
      match get o (lit "field") with
      | VArray _ => true
      | _ => false
      end
  | _ => false
  end.

(** ** Numerals (ECMA-262, StringNumericLiteral)

    The grammar that says which strings are numerals; [Number] converts a
    string that is a StringNumericLiteral, [parseFloat] one that begins,
    after white space, with a StrDecimalLiteral, and [parseInt(_, 10)] one
    that begins, after white space, with an optionally signed run of decimal
    digits. *)

Definition WhiteSpace (ws : jsstring) : Prop :=
  Forall (fun c => isWhiteSpace c = true) ws.

Definition Digits (p : code_unit -> bool) (ds : jsstring) : Prop :=
  ds <> [] /\ Forall (fun c => p c = true) ds.

Definition DecimalDigits : jsstring -> Prop := Digits isDecimalDigit.

Inductive SignedInteger : jsstring -> Prop :=
| SI_digits ds : DecimalDigits ds -> SignedInteger ds
| SI_plus ds : DecimalDigits ds -> SignedInteger (43 :: ds)
| SI_minus ds : DecimalDigits ds -> SignedInteger (45 :: ds).

Inductive ExponentPart : jsstring -> Prop :=
| EP_intro c si :
    c = 101 \/ c = 69 -> SignedInteger si -> ExponentPart (c :: si).

Inductive optional (P : jsstring -> Prop) : jsstring -> Prop :=
| opt_absent : optional P []
| opt_present s : P s -> optional P s.

Inductive StrUnsignedDecimalLiteral : jsstring -> Prop :=
| SUDL_Infinity : StrUnsignedDecimalLiteral (lit "Infinity")
| SUDL_int_dot i f e :
    DecimalDigits i -> optional DecimalDigits f -> optional ExponentPart e ->
    StrUnsignedDecimalLiteral (i ++ 46 :: f ++ e)
| SUDL_dot_frac f e :
    DecimalDigits f -> optional ExponentPart e ->
    StrUnsignedDecimalLiteral (46 :: f ++ e)
| SUDL_int i e :
    DecimalDigits i -> optional ExponentPart e ->
    StrUnsignedDecimalLiteral (i ++ e).

Inductive StrDecimalLiteral : jsstring -> Prop :=
| SDL_unsigned u : StrUnsignedDecimalLiteral u -> StrDecimalLiteral u
| SDL_plus u : StrUnsignedDecimalLiteral u -> StrDecimalLiteral (43 :: u)
| SDL_minus u : StrUnsignedDecimalLiteral u -> StrDecimalLiteral (45 :: u).

Inductive NonDecimalIntegerLiteral : jsstring -> Prop :=
| NDIL_binary p ds :
    p = 98 \/ p = 66 -> Digits isBinaryDigit ds ->
    NonDecimalIntegerLiteral (48 :: p :: ds)
| NDIL_octal p ds :
    p = 111 \/ p = 79 -> Digits isOctalDigit ds ->
    NonDecimalIntegerLiteral (48 :: p :: ds)
| NDIL_hex p ds :
    p = 120 \/ p = 88 -> Digits isHexDigit ds ->
    NonDecimalIntegerLiteral (48 :: p :: ds).

Inductive StrNumericLiteral : jsstring -> Prop :=
| SNL_decimal l : StrDecimalLiteral l -> StrNumericLiteral l
| SNL_non_decimal l : NonDecimalIntegerLiteral l -> StrNumericLiteral l.

Inductive StringNumericLiteral : jsstring -> Prop :=
| SNumL_blank ws : WhiteSpace ws -> StringNumericLiteral ws
| SNumL_literal ws1 l ws2 :
    WhiteSpace ws1 -> StrNumericLiteral l -> WhiteSpace ws2 ->
    StringNumericLiteral (ws1 ++ l ++ ws2).

(** When the text of a column parses as the type a cast asks for.  Every
    string is acceptable to the Boolean cast. *)
Definition parses_as (c : cast_fn) (v : jsstring) : Prop :=
  match c with
  | CastNumber => StringNumericLiteral v
  | CastFloat =>
      exists ws l rest,
        WhiteSpace ws /\ StrDecimalLiteral l /\ v = ws ++ l ++ rest
  | CastInteger =>
      exists ws si rest,
        WhiteSpace ws /\ SignedInteger si /\ v = ws ++ si ++ rest
  | CastBoolean => True
  end.

(** ** [getFields] over a store

    The tree model above takes the configuration by value.  To speak about
    identity and mutation, the same function is given here over a store:
    objects, arrays and functions are cells, a value refers to them by
    location, and every object literal, closure and array that [getFields]
    creates is an allocation. *)

Module Store.

Definition loc := nat.

Inductive sval : Type :=
| SUndefined
| SNull
| SBool (b : bool)
| SNumber (n : number)
| SString (s : jsstring)
| SRef (l : loc).

Inductive cell : Type :=
| CObject (props : list (jsstring * sval))
| CArray (elems : list sval)
| CFunction (f : cast_fn).

Definition store := list cell.

(** Computations that read and extend the store and may throw. *)
Definition M (A : Type) : Type := store -> completion A * store.

Definition ret {A} (a : A) : M A := fun h => (Normal a, h).

Definition throw {A} (e : error) : M A := fun h => (Throw e, h).

Definition bind {A B} (m : M A) (k : A -> M B) : M B :=
  fun h =>
    match m h with
    | (Normal a, h') => k a h'
    | (Throw e, h') => (Throw e, h')
    end.

Declare Scope store_scope.
Delimit Scope store_scope with store.

Notation "x <- m ;; k" := (bind m (fun x => k))
  (at level 61, m at next level, right associativity) : store_scope.

Local Open Scope store_scope.

Definition alloc (c : cell) : M sval :=
  fun h => (Normal (SRef (List.length h)), h ++ [c]).

Definition read (l : loc) : M (option cell) :=
  fun h => (Normal (nth_error h l), h).

Fixpoint mapM {A B} (f : A -> M B) (l : list A) : M (list B) :=
  match l with
  | [] => ret []
  | a :: r => b <- f a ;; bs <- mapM f r ;; ret (b :: bs)
  end.

Definition ToBoolean (v : sval) : bool :=
  match v with
  | SUndefined | SNull => false
  | SBool b => b
  | SNumber NaN => false
  | SNumber (Infinity _) => true
  | SNumber (Finite _ m _) => negb (m =? 0)
  | SString s => match s with [] => false | _ :: _ => true end
  | SRef _ => true
  end.

(** [a || b], where evaluating [b] may allocate. *)
Definition js_or (a : sval) (b : M sval) : M sval :=
  if ToBoolean a then ret a else b.

Definition strict_eq_str (v : sval) (s : jsstring) : bool :=
  match v with
  | SString t => str_eqb t s
  | _ => false
  end.

Fixpoint lookup (k : jsstring) (o : list (jsstring * sval)) : option sval :=
  match o with
  | [] => None
  | (k', v) :: r => if str_eqb k' k then Some v else lookup k r
  end.

Definition get (o : list (jsstring * sval)) (k : jsstring) : sval :=
  match lookup k o with
  | Some v => v
  | None => SUndefined
  end.

(** [v.k], for the keys that [getFields] reads. *)
Definition GetV (v : sval) (k : jsstring) : M sval :=
  match v with
  | SUndefined | SNull => throw TypeError
  | SRef l =>
      c <- read l ;;
      match c with
      | Some (CObject o) => ret (get o k)
      | _ => ret SUndefined
      end
  | _ => ret SUndefined
  end.

(** The elements [a.map] goes through; only an array has [map]. *)
Definition array_elems (a : sval) : M (list sval) :=
  match a with
  | SRef l =>
      c <- read l ;;
      match c with
      | Some (CArray es) => ret es
      | _ => throw TypeError
      end
  | _ => throw TypeError
  end.

(** The [switch (dataType)]: each case creates a closure. *)
Definition select_cast (dataType : sval) : M sval :=
  if strict_eq_str dataType (lit "number") then alloc (CFunction CastNumber)
  else if strict_eq_str dataType (lit "integer") then alloc (CFunction CastInteger)
  else if strict_eq_str dataType (lit "float") then alloc (CFunction CastFloat)
  else if strict_eq_str dataType (lit "boolean") then alloc (CFunction CastBoolean)
  else ret SUndefined.

Definition buildField (operation : jsstring) (entry : sval) : M sval :=
  property <- GetV entry (lit "property") ;;
  width <- GetV entry (lit "width") ;;
  alignRaw <- GetV entry (lit "align") ;;
  dataType <- GetV entry (lit "dataType") ;;
  cast <- (if str_eqb operation (lit "fromFile") then select_cast dataType
           else ret SUndefined) ;;
  let align :=
    if str_eqb operation (lit "fromFile") then SUndefined
    else if str_eqb operation (lit "toFile") then alignRaw
    else SUndefined in
  alloc (CObject [ (lit "property", property); (lit "width", width);
                   (lit "cast", cast); (lit "align", align) ]).

(** The array that [map] returns is allocated once its elements are known;
    nothing can observe it earlier. *)
Definition getFields (operation : jsstring) (fieldConfig : sval) : M sval :=
  base <- js_or fieldConfig (alloc (CObject [])) ;;
  field <- GetV base (lit "field") ;;
  rawFields <- js_or field (alloc (CArray [])) ;;
  elems <- array_elems rawFields ;;
  fields <- mapM (buildField operation) elems ;;
  alloc (CArray fields).

(** *** Reading a schema back from the store *)

Record FieldView : Type := mkView {
  property : sval;
  width : sval;
  cast : option cast_fn;
  align : sval;
}.

Definition view_cast (h : store) (v : sval) : option cast_fn :=
  match v with
  | SRef l =>
      match nth_error h l with
      | Some (CFunction f) => Some f
      | _ => None
      end
  | _ => None
  end.

Definition view_field (h : store) (v : sval) : option FieldView :=
  match v with
  | SRef l =>
      match nth_error h l with
      | Some (CObject o) =>
          Some (mkView (get o (lit "property")) (get o (lit "width"))
                  (view_cast h (get o (lit "cast"))) (get o (lit "align")))
      | _ => None
      end
  | _ => None
  end.

Definition view_schema (h : store) (v : sval) : option (list (option FieldView)) :=
  match v with
  | SRef l =>
      match nth_error h l with
      | Some (CArray es) => Some (List.map (view_field h) es)
      | _ => None
      end
  | _ => None
  end.

(** What a call gave: the schema it returned, read in the store it left, or
    the error it threw. *)
Definition view_result (h : store) (r : completion sval)
  : completion (option (list (option FieldView))) :=
  match r with
  | Normal v => Normal (view_schema h v)
  | Throw e => Throw e
  end.

(** *** Well-formed stores: no reference points outside the store *)

Definition valid (h : store) (v : sval) : Prop :=
  match v with
  | SRef l => (l < List.length h)%nat
  | _ => True
  end.

Definition cell_values (c : cell) : list sval :=
  match c with
  | CObject o => List.map snd o
  | CArray es => es
  | CFunction _ => []
  end.

Definition closed (h : store) : Prop :=
  Forall (fun c => Forall (valid h) (cell_values c)) h.

(** *** Computations that only allocate *)

Definition extends (h h' : store) : Prop := exists new, h' = h ++ new.

Definition frame {A} (m : M A) : Prop :=
  forall h r h', m h = (r, h') -> extends h h'.

(** *** The schema as a function of the configuration in the store

    What [getFields] is to return, computed by reading only. *)

Definition peek (h : store) (v : sval) (k : jsstring) : completion sval :=
  match v with
  | SUndefined | SNull => Throw TypeError
  | SRef l =>
      match nth_error h l with
      | Some (CObject o) => Normal (get o k)
      | _ => Normal SUndefined
      end
  | _ => Normal SUndefined
  end.

Definition cast_of (dataType : sval) : option cast_fn :=
  if strict_eq_str dataType (lit "number") then Some CastNumber
  else if strict_eq_str dataType (lit "integer") then Some CastInteger
  else if strict_eq_str dataType (lit "float") then Some CastFloat
  else if strict_eq_str dataType (lit "boolean") then Some CastBoolean
  else None.

Definition field_of (operation : jsstring) (h : store) (entry : sval)
  : completion FieldView :=
  match peek h entry (lit "property"), peek h entry (lit "width"),
        peek h entry (lit "align"), peek h entry (lit "dataType") with
  | Normal p, Normal w, Normal a, Normal d =>
      Normal (mkView p w
                (if str_eqb operation (lit "fromFile") then cast_of d else None)
                (if str_eqb operation (lit "fromFile") then SUndefined
                 else if str_eqb operation (lit "toFile") then a
                 else SUndefined))
  | _, _, _, _ => Throw TypeError
  end.

Fixpoint fields_of (operation : jsstring) (h : store) (es : list sval)
  : completion (list FieldView) :=
  match es with
  | [] => Normal []
  | e :: r =>
      match field_of operation h e with
      | Normal f =>
          match fields_of operation h r with
          | Normal fs => Normal (f :: fs)
          | Throw err => Throw err
          end
      | Throw err => Throw err
      end
  end.

Definition rawFields_of (h : store) (fieldConfig : sval)
  : completion (list sval) :=
  match (if ToBoolean fieldConfig then peek h fieldConfig (lit "field")
         else Normal SUndefined) with
  | Throw err => Throw err
  | Normal field =>
      if ToBoolean field then
        match field with
        | SRef l =>
            match nth_error h l with
            | Some (CArray es) => Normal es
            | _ => Throw TypeError
            end
        | _ => Throw TypeError
        end
      else Normal []
  end.

Definition schema_of (operation : jsstring) (h : store) (fieldConfig : sval)
  : completion (option (list (option FieldView))) :=
  match rawFields_of h fieldConfig with
  | Throw err => Throw err
  | Normal es =>
      match fields_of operation h es with
      | Normal fs => Normal (Some (List.map Some fs))
      | Throw err => Throw err
      end
  end.

End Store.

(** ** The two models side by side

    [represents h sv v]: in the store [h], the value [sv] is the root of the
    tree [v]. *)

Inductive represents (h : Store.store) : Store.sval -> value -> Prop :=
| rep_undefined : represents h Store.SUndefined VUndefined
| rep_null : represents h Store.SNull VNull
| rep_bool b : represents h (Store.SBool b) (VBool b)
| rep_number n : represents h (Store.SNumber n) (VNumber n)
| rep_string s : represents h (Store.SString s) (VString s)
| rep_array l es vs :
    nth_error h l = Some (Store.CArray es) ->
    Forall2 (represents h) es vs ->
    represents h (Store.SRef l) (VArray vs)
| rep_object l so o :
    nth_error h l = Some (Store.CObject so) ->
    Forall2 (fun se e => fst se = fst e /\ represents h (snd se) (snd e)) so o ->
    represents h (Store.SRef l) (VObject o)
| rep_function l f :
    nth_error h l = Some (Store.CFunction f) ->
    represents h (Store.SRef l) (VFunction f).

Definition represents_field (h : Store.store)
    (fv : Store.FieldView) (f : Field) : Prop :=
  represents h (Store.property fv) (property f)
  /\ represents h (Store.width fv) (width f)
  /\ Store.cast fv = cast f
  /\ represents h (Store.align fv) (align f).

(** ** FixedWidthFile.node.ts: [execute]

    [execute] runs against the workflow engine ([this]) and the fixed-width
    library.  Both are outside this repository; they are taken as a record
    of operations, each of which may throw.  [debug] only logs and is left
    out; [await] is sequential. *)

Module Node.

(** A thrown value: the [TypeError] of [getFields], or an error object of
    the engine or the library with its [context] property, if it has one. *)
Inductive js_error : Type :=
| FromGetFields (e : error)
| FromHost (message : jsstring) (context : option object).

Inductive attempt (A : Type) : Type :=
| Done (a : A)
| Failed (e : js_error).

Arguments Done {A} a.
Arguments Failed {A} e.

Definition attempt_bind {A B} (m : attempt A) (k : A -> attempt B) : attempt B :=
  match m with
  | Done a => k a
  | Failed e => Failed e
  end.

Declare Scope attempt_scope.
Delimit Scope attempt_scope with attempt.

Notation "x <- m ;; k" := (attempt_bind m (fun x => k))
  (at level 61, m at next level, right associativity) : attempt_scope.

Local Open Scope attempt_scope.

(** [INodeExecutionData], with the properties [execute] reads and writes. *)
Record item : Type := mkItem {
  json : value;
  binary : option object;
  error : option js_error;
  pairedItem : option nat;
}.

(** What [execute] ends with: the items it hands to [prepareOutputData],
    or what it throws. *)
Inductive exception : Type :=
| Rethrown (e : js_error)   (* the error object itself *)
| NodeOperationError (cause : js_error) (itemIndex : option nat).

Inductive outcome : Type :=
| Returned (items : list item)
| Thrown (e : exception).

Record Host : Type := mkHost {
  (** [this.getInputData()] *)
  getInputData : list item;
  (** [this.getNodeParameter('operation', 0)] *)
  operation : jsstring;
  (** [this.getNodeParameter('options', 0, {})] *)
  options : object;
  (** [this.getNodeParameter('binaryPropertyName', itemIndex)] *)
  binaryPropertyName : nat -> attempt jsstring;
  (** [this.getNodeParameter('fields', itemIndex, {})] *)
  fieldsConfig : nat -> attempt value;
  (** [this.helpers.getBinaryDataBuffer(itemIndex, binaryPropertyName)] *)
  getBinaryDataBuffer : nat -> jsstring -> attempt (list N);
  (** [this.helpers.prepareBinaryData(Buffer.from(text), fileName)] *)
  prepareBinaryData : jsstring -> value -> attempt value;
  (** [this.continueOnFail()] *)
  continueOnFail : bool;
  (** [this.getInputData(itemIndex)[0].json] *)
  inputJson : nat -> attempt value;
  (** [parse(binaryData, parserOptions)] of the library *)
  parse : list N -> object -> attempt (list value);
  (** [stringify(records, stringifyOptions)] of the library *)
  stringify : list value -> object -> attempt jsstring;
}.

Definition number_of_nat (n : nat) : number := Finite false (N.of_nat n) 0.

Definition is_undefined (v : value) : bool :=
  match v with VUndefined => true | _ => false end.

(** The properties every plain object inherits from [Object.prototype];
    reading one of them gives a function (for [__proto__], the prototype),
    never [undefined]. *)
Definition Object_prototype_keys : list jsstring :=
  [ lit "constructor"; lit "hasOwnProperty"; lit "isPrototypeOf";
    lit "propertyIsEnumerable"; lit "toLocaleString"; lit "toString";
    lit "valueOf"; lit "__proto__"; lit "__defineGetter__";
    lit "__defineSetter__"; lit "__lookupGetter__"; lit "__lookupSetter__" ].

Definition inherited (name : jsstring) : bool :=
  existsb (str_eqb name) Object_prototype_keys.

(** [item.binary === undefined || item.binary[name] === undefined], negated.
    [item.binary[name]] is an own property when there is one and is looked
    up on [Object.prototype] otherwise. *)
Definition has_binary (name : jsstring) (i : item) : bool :=
  match binary i with
  | None => false
  | Some b =>
      match lookup name b with
      | Some v => negb (is_undefined v)
      | None => inherited name
      end
  end.

Definition lift_completion {A} (c : completion A) : attempt A :=
  match c with
  | Normal a => Done a
  | Throw e => Failed (FromGetFields e)
  end.

(** The [try] block of the ['fromFile'] loop for one item: [None] when the
    item is skipped by [continue], otherwise the parsed records. *)
Definition tryBlock (H : Host) (itemIndex : nat) (it : item)
  : attempt (option (list value)) :=
  name <- binaryPropertyName H itemIndex ;;
  if negb (has_binary name it) then Done None
  else
    fieldsConfig <- fieldsConfig H itemIndex ;;
    fields <- lift_completion (getFields (operation H) fieldsConfig) ;;
    binaryData <- getBinaryDataBuffer H itemIndex name ;;
    parsedItems <- parse H binaryData (parserOptions (options H) fields) ;;
    Done (Some parsedItems).

(** [{ json, pairedItem: itemIndex }]. *)
Definition parsed_item (itemIndex : nat) (record : value) : item :=
  mkItem record None None (Some itemIndex).

(** [{ json, error, pairedItem: itemIndex }]. *)
Definition error_item (j : value) (e : js_error) (itemIndex : nat) : item :=
  mkItem j None (Some e) (Some itemIndex).

(** The [else] of the ['fromFile'] handler: an error with a [context] gets
    [context.itemIndex] set and is thrown again, any other is wrapped. *)
Definition throw_fromFile (e : js_error) (itemIndex : nat) : exception :=
  match e with
  | FromHost m (Some ctx) =>
      Rethrown
        (FromHost m
           (Some (set (lit "itemIndex") (VNumber (number_of_nat itemIndex)) ctx)))
  | _ => NodeOperationError e (Some itemIndex)
  end.

Definition throw_toFile (e : js_error) : exception :=
  match e with
  | FromHost m (Some ctx) => Rethrown e
  | _ => NodeOperationError e None
  end.

(** [for (let itemIndex = 0; itemIndex < items.length; itemIndex++)].  The
    body assigns to [items] and pushes onto it, so the bound moves; [fuel]
    bounds the number of iterations, [None] is fuel running out.  An error
    thrown inside the handler leaves [execute] as it is. *)
Fixpoint fromFile_loop (H : Host) (fuel : nat) (items : list item)
    (itemIndex : nat) : option outcome :=
  match fuel with
  | O => None
  | S fuel' =>
      match nth_error items itemIndex with
      | None => Some (Returned items)
      | Some it =>
          match tryBlock H itemIndex it with
          | Done None => fromFile_loop H fuel' items (S itemIndex)
          | Done (Some parsedItems) =>
              fromFile_loop H fuel'
                (List.map (parsed_item itemIndex) parsedItems) (S itemIndex)
          | Failed e =>
              if continueOnFail H then
                match inputJson H itemIndex with
                | Done j =>
                    fromFile_loop H fuel'
                      (items ++ [error_item j e itemIndex]) (S itemIndex)
                | Failed e' => Some (Thrown (Rethrown e'))
                end
              else Some (Thrown (throw_fromFile e itemIndex))
          end
      end
  end.

(** The ['toFile'] branch.  The two parameters and [getFields] are read
    before the [try]. *)
Definition toFile (H : Host) (items : list item) : outcome :=
  match binaryPropertyName H 0%nat with
  | Failed e => Thrown (Rethrown e)
  | Done name =>
      match fieldsConfig H 0%nat with
      | Failed e => Thrown (Rethrown e)
      | Done fieldsConfig =>
          let fileName := get (options H) (lit "fileName") in
          match getFields (operation H) fieldsConfig with
          | Throw e => Thrown (Rethrown (FromGetFields e))
          | Normal fields =>
              match (text <- stringify H (List.map json items)
                               (stringifyOptions (options H) fields) ;;
                     prepareBinaryData H text fileName) with
              | Done binaryData =>
                  Returned [mkItem (VObject []) (Some [(name, binaryData)])
                              None None]
              | Failed e =>
                  if continueOnFail H
                  then Returned (items ++ [mkItem (VObject []) None (Some e) None])
                  else Thrown (throw_toFile e)
              end
          end
      end
  end.

Definition execute (H : Host) (fuel : nat) : option outcome :=
  let items := getInputData H in
  if str_eqb (operation H) (lit "fromFile") then fromFile_loop H fuel items 0%nat
  else if str_eqb (operation H) (lit "toFile") then Some (toFile H items)
  else Some (Returned items).

(** The item at [itemIndex] and every later one is passed over by
    [continue]. *)
Definition skips (H : Host) (items : list item) (itemIndex : nat) : Prop :=
  forall j it,
    (itemIndex <= j)%nat -> nth_error items j = Some it ->
    tryBlock H j it = Done None.

Definition is_error_item (i : item) : Prop :=
  exists j e k, i = error_item j e k.

(** The two forms the items of the ['fromFile'] loop take: the input items,
    or the records of one parsed item, in both cases followed by the error
    items pushed so far. *)
Definition loop_shape (H : Host) (items : list item) : Prop :=
  exists errs,
    Forall is_error_item errs
    /\ (continueOnFail H = false -> errs = [])
    /\ (items = getInputData H ++ errs
        \/ exists itemIndex records,
             items = List.map (parsed_item itemIndex) records ++ errs).

(** A small engine to run [execute] against: every item is asked for the
    binary property ['data'], and the library answers with [parsed] and
    [text].  The node has one input, so [this.getInputData(itemIndex)], whose
    argument is an input index, has items for index 0 only. *)
Definition sample_host (operation : jsstring) (continueOnFail : bool)
    (input : list item) (fields : value) (parsed : attempt (list value))
    (text : attempt jsstring) : Host :=
  mkHost input operation []
    (fun _ => Done (lit "data"))
    (fun _ => Done fields)
    (fun _ _ => Done (lit "0042"))
    (fun t fileName => Done (VObject [(lit "data", VString t)]))
    continueOnFail
    (fun itemIndex =>
       match itemIndex, input with
       | O, it :: _ => Done (json it)
       | _, _ => Failed (FromHost (lit "no input") None)
       end)
    (fun _ _ => parsed)
    (fun _ _ => text).

(** One integer column of width 4. *)
Definition sample_fields : value :=
  fieldConfig_of
    [VObject [ (lit "property", VString (lit "id"));
               (lit "width", VNumber (Finite false 4 0));
               (lit "dataType", VString (lit "integer")) ]].

Definition sample_file : item :=
  mkItem (VObject []) (Some [(lit "data", VObject [])]) None None.

Definition sample_plain : item :=
  mkItem (VObject [(lit "n", VBool true)]) None None None.

End Node.

(** * Lemmas *)

Section Strings.

Lemma str_eqb_eq (s t : jsstring) : str_eqb s t = true <-> s = t.
Proof.
  revert t; induction s as [|c s IH]; intros [|d t]; simpl;
    try (split; [discriminate | discriminate]); try tauto.
  rewrite andb_true_iff, N.eqb_eq, IH.
  split; [intros [-> ->]; reflexivity | intros E; inversion E; auto].
Qed.

Lemma str_eqb_refl (s : jsstring) : str_eqb s s = true.
Proof. apply str_eqb_eq; reflexivity. Qed.

Lemma str_eqb_neq (s t : jsstring) : str_eqb s t = false <-> s <> t.
Proof.
  rewrite <- str_eqb_eq. destruct (str_eqb s t); split; congruence.
Qed.

Lemma strict_eq_str_true (v : value) (s : jsstring) :
  strict_eq_str v s = true <-> v = VString s.
Proof.
  destruct v; simpl; try (split; [discriminate | discriminate]).
  rewrite str_eqb_eq. split; [intros ->; reflexivity | intros E; inversion E; auto].
Qed.

Lemma strict_eq_str_false (v : value) (s : jsstring) :
  strict_eq_str v s = false <-> v <> VString s.
Proof.
  rewrite <- strict_eq_str_true. destruct (strict_eq_str v s); split; congruence.
Qed.

End Strings.

Section Objects.

Lemma get_set_same (k : jsstring) (v : value) (o : object) :
  get (set k v o) k = v.
Proof.
  unfold get. induction o as [|[k' v'] r IH]; simpl.
  - rewrite str_eqb_refl; reflexivity.
  - destruct (str_eqb k' k) eqn:E; simpl; rewrite E; auto.
Qed.

Lemma get_set_other (k k2 : jsstring) (v : value) (o : object) :
  k <> k2 -> get (set k v o) k2 = get o k2.
Proof.
  intros N. unfold get. induction o as [|[k' v'] r IH]; simpl.
  - apply str_eqb_neq in N. rewrite N. reflexivity.
  - destruct (str_eqb k' k) eqn:E; simpl.
    + apply str_eqb_eq in E; subst k'.
      apply str_eqb_neq in N. rewrite N. reflexivity.
    + destruct (str_eqb k' k2); auto.
Qed.

End Objects.

Section Schema.

Variable operation : jsstring.

Lemma buildField_object (o : object) :
  buildField operation (VObject o) = Normal (field_of_entry operation o).
Proof. reflexivity. Qed.

Lemma mapM_buildField_objects (objs : list object) :
  mapM (buildField operation) (List.map VObject objs)
  = Normal (List.map (field_of_entry operation) objs).
Proof.
  induction objs as [|o r IH]; simpl; [reflexivity|].
  rewrite IH. reflexivity.
Qed.

(** On a configuration whose [field] is a list of objects, [getFields]
    is [map] of [field_of_entry]. *)
Lemma getFields_objects (cfg : object) (objs : list object) :
  get cfg (lit "field") = VArray (List.map VObject objs) ->
  getFields operation (VObject cfg)
  = Normal (List.map (field_of_entry operation) objs).
Proof.
  intros E. unfold getFields, js_or; simpl. rewrite E; simpl.
  apply mapM_buildField_objects.
Qed.

Lemma mapM_inv {A B} (f : A -> completion B) (l : list A) (l' : list B) :
  mapM f l = Normal l' -> Forall2 (fun a b => f a = Normal b) l l'.
Proof.
  revert l'; induction l as [|a r IH]; simpl; intros l' E.
  - inversion E; constructor.
  - destruct (f a) as [b|] eqn:Ea; simpl in E; [|discriminate].
    destruct (mapM f r) as [bs|] eqn:Er; simpl in E; [|discriminate].
    inversion E; subst. constructor; auto.
Qed.

Lemma getFields_inv (fieldConfig : value) (fs : list Field) :
  getFields operation fieldConfig = Normal fs ->
  exists entries,
    Forall2 (fun e f => buildField operation e = Normal f) entries fs.
Proof.
  unfold getFields. simpl.
  destruct (GetV _ _) as [field|]; simpl; [|discriminate].
  unfold array_map. destruct (js_or field _); try discriminate.
  intros E. eexists. apply mapM_inv. exact E.
Qed.

End Schema.

(** * Schema construction *)

Section SchemaClaims.

Lemma buildField_align_fromFile (e : value) (f : Field) :
  buildField (lit "fromFile") e = Normal f -> align f = VUndefined.
Proof.
  unfold buildField.
  destruct (GetV e (lit "property")) as [p|]; simpl; [|discriminate].
  destruct (GetV e (lit "width")) as [w|]; simpl; [|discriminate].
  destruct (GetV e (lit "align")) as [a|]; simpl; [|discriminate].
  destruct (GetV e (lit "dataType")) as [d|]; simpl; [|discriminate].
  intros E; inversion E; reflexivity.
Qed.

Lemma buildField_cast_toFile (e : value) (f : Field) :
  buildField (lit "toFile") e = Normal f -> cast f = None.
Proof.
  unfold buildField.
  destruct (GetV e (lit "property")) as [p|]; simpl; [|discriminate].
  destruct (GetV e (lit "width")) as [w|]; simpl; [|discriminate].
  destruct (GetV e (lit "align")) as [a|]; simpl; [|discriminate].
  destruct (GetV e (lit "dataType")) as [d|]; simpl; [|discriminate].
  intros E; inversion E; reflexivity.
Qed.

Lemma select_cast_table (dataType : value) :
  cast_table dataType (select_cast dataType).
Proof.
  unfold cast_table, select_cast.
  destruct (strict_eq_str dataType (lit "number")) eqn:E1;
    [apply strict_eq_str_true in E1; auto|].
  destruct (strict_eq_str dataType (lit "integer")) eqn:E2;
    [apply strict_eq_str_true in E2; auto|].
  destruct (strict_eq_str dataType (lit "float")) eqn:E3;
    [apply strict_eq_str_true in E3; auto 6|].
  destruct (strict_eq_str dataType (lit "boolean")) eqn:E4;
    [apply strict_eq_str_true in E4; auto 6|].
  apply strict_eq_str_false in E1, E2, E3, E4.
  right; right; right; right. auto.
Qed.

(** C1, as stated, fails: a configuration with a negative width and an
    empty property path is turned into a schema, no error is raised. *)
Lemma getFields_invalid_entry_accepted :
  ~ (forall (operation : jsstring) (objs : list object),
        existsb invalid_entry objs = true ->
        exists e, getFields operation (fieldConfig_of (List.map VObject objs))
                  = Throw e).
Proof.
  intros H.
  destruct (H (lit "fromFile")
              [[(lit "property", VString []);
                (lit "width", VNumber (Finite true 1 0))]]
              eq_refl) as [e E].
  vm_compute in E. discriminate E.
Qed.

(** C1 (amended): [getFields] validates nothing.  For every operation and
    every list of field entries, [getFields] returns a schema; an entry
    with a negative width or an empty or missing property path yields, at
    its own position, a FieldSpec carrying that width and that property
    unchanged. *)
Theorem getFields_no_validation
    (operation : jsstring) (objs : list object) (i : nat) (o : object) :
  nth_error objs i = Some o ->
  invalid_entry o = true ->
  exists fs f,
    getFields operation (fieldConfig_of (List.map VObject objs)) = Normal fs
    /\ nth_error fs i = Some f
    /\ width f = get o (lit "width")
    /\ property f = get o (lit "property").
Proof.
  intros Hi _.
  exists (List.map (field_of_entry operation) objs), (field_of_entry operation o).
  split; [apply getFields_objects; reflexivity|].
  split; [|split; reflexivity].
  rewrite nth_error_map, Hi. reflexivity.
Qed.

Lemma getFields_no_validation_witness :
  exists fs f,
    getFields (lit "toFile")
      (fieldConfig_of
         (List.map VObject
            [[(lit "property", VString (lit "id"));
              (lit "width", VNumber (Finite true 4 0))]])) = Normal fs
    /\ nth_error fs 0 = Some f
    /\ width f = VNumber (Finite true 4 0)
    /\ property f = VString (lit "id").
Proof.
  apply (@getFields_no_validation (lit "toFile")
           [[(lit "property", VString (lit "id"));
             (lit "width", VNumber (Finite true 4 0))]]
           0%nat
           [(lit "property", VString (lit "id"));
            (lit "width", VNumber (Finite true 4 0))]);
    reflexivity.
Defined.

(** C2, as stated, fails: in ['toFile'] mode an entry without [align]
    gives a FieldSpec whose [align] is [undefined], not ['left']. *)
Lemma getFields_align_not_defaulted :
  ~ (forall (o : object) (fs : list Field),
        get o (lit "align") = VUndefined ->
        getFields (lit "toFile") (fieldConfig_of [VObject o]) = Normal fs ->
        Forall (fun f => align f = VString (lit "left")) fs).
Proof.
  intros H.
  specialize (H [(lit "property", VString (lit "name"));
                 (lit "width", VNumber (Finite false 6 0))]
                _ eq_refl eq_refl).
  inversion H as [|f l Hf _]; subst. vm_compute in Hf. discriminate Hf.
Qed.

(** C2 (amended): in ['toFile'] mode the FieldSpec's [align] is the
    entry's [align] as it is, [undefined] when the entry has none; in
    ['fromFile'] mode the FieldSpec's [cast] is the one the cast table
    gives for the entry's [dataType]: a cast function for ['number'],
    ['integer'], ['float'] and ['boolean'], none for any other value. *)
Theorem getFields_align_and_cast
    (objs : list object) (i : nat) (o : object) :
  nth_error objs i = Some o ->
  (exists fs f,
      getFields (lit "toFile") (fieldConfig_of (List.map VObject objs))
      = Normal fs
      /\ nth_error fs i = Some f
      /\ align f = get o (lit "align"))
  /\ (exists fs f,
        getFields (lit "fromFile") (fieldConfig_of (List.map VObject objs))
        = Normal fs
        /\ nth_error fs i = Some f
        /\ cast_table (get o (lit "dataType")) (cast f)).
Proof.
  intros Hi. split.
  - exists (List.map (field_of_entry (lit "toFile")) objs),
           (field_of_entry (lit "toFile") o).
    split; [apply getFields_objects; reflexivity|].
    split; [rewrite nth_error_map, Hi; reflexivity | reflexivity].
  - exists (List.map (field_of_entry (lit "fromFile")) objs),
           (field_of_entry (lit "fromFile") o).
    split; [apply getFields_objects; reflexivity|].
    split; [rewrite nth_error_map, Hi; reflexivity |].
    apply select_cast_table.
Qed.

Lemma getFields_align_and_cast_witness :
  let o := [(lit "property", VString (lit "id"));
            (lit "width", VNumber (Finite false 4 0));
            (lit "dataType", VString (lit "integer"));
            (lit "align", VString (lit "right"))] in
  (exists fs f,
      getFields (lit "toFile") (fieldConfig_of (List.map VObject [o]))
      = Normal fs
      /\ nth_error fs 0 = Some f
      /\ align f = get o (lit "align"))
  /\ (exists fs f,
        getFields (lit "fromFile") (fieldConfig_of (List.map VObject [o]))
        = Normal fs
        /\ nth_error fs 0 = Some f
        /\ cast_table (get o (lit "dataType")) (cast f)).
Proof.
  intros o. apply (@getFields_align_and_cast [o] 0%nat o). reflexivity.
Defined.

(** C5: every FieldSpec built in ['fromFile'] mode has an undefined
    [align], and every FieldSpec built in ['toFile'] mode has an undefined
    [cast]. *)
Theorem getFields_disjoint_fields (fieldConfig : value) (fs : list Field) :
  (getFields (lit "fromFile") fieldConfig = Normal fs ->
   Forall (fun f => align f = VUndefined) fs)
  /\ (getFields (lit "toFile") fieldConfig = Normal fs ->
      Forall (fun f => cast f = None) fs).
Proof.
  split; intros E; apply getFields_inv in E; destruct E as [entries F].
  - induction F; constructor; eauto using buildField_align_fromFile.
  - induction F; constructor; eauto using buildField_cast_toFile.
Qed.

(** C6: on a list of field entries [getFields] returns one FieldSpec per
    entry, in the order of the list, each with the [property] and the
    [width] of its entry. *)
Theorem getFields_one_per_entry
    (operation : jsstring) (cfg : object) (objs : list object) :
  get cfg (lit "field") = VArray (List.map VObject objs) ->
  exists fs,
    getFields operation (VObject cfg) = Normal fs
    /\ List.length fs = List.length objs
    /\ List.map property fs = List.map (fun o => get o (lit "property")) objs
    /\ List.map width fs = List.map (fun o => get o (lit "width")) objs.
Proof.
  intros E. exists (List.map (field_of_entry operation) objs).
  split; [apply getFields_objects; exact E|].
  rewrite length_map, !map_map. auto.
Qed.

Lemma getFields_disjoint_fields_witness :
  let cfg := fieldConfig_of
               [VObject [(lit "property", VString (lit "id"));
                         (lit "width", VNumber (Finite false 4 0));
                         (lit "dataType", VString (lit "integer"));
                         (lit "align", VString (lit "right"))]] in
  Forall (fun f => align f = VUndefined)
    [mkField (VString (lit "id")) (VNumber (Finite false 4 0))
       (Some CastInteger) VUndefined]
  /\ Forall (fun f => cast f = None)
       [mkField (VString (lit "id")) (VNumber (Finite false 4 0))
          None (VString (lit "right"))].
Proof.
  intros cfg. split.
  - apply (proj1 (getFields_disjoint_fields cfg _)). reflexivity.
  - apply (proj2 (getFields_disjoint_fields cfg _)). reflexivity.
Defined.

Lemma getFields_one_per_entry_witness :
  exists fs,
    getFields (lit "fromFile")
      (VObject [(lit "field",
                 VArray (List.map VObject
                   [[(lit "property", VString (lit "id"));
                     (lit "width", VNumber (Finite false 4 0))];
                    [(lit "property", VString (lit "name"));
                     (lit "width", VNumber (Finite false 6 0))]]))])
    = Normal fs
    /\ List.length fs = 2%nat
    /\ List.map property fs = [VString (lit "id"); VString (lit "name")]
    /\ List.map width fs
       = [VNumber (Finite false 4 0); VNumber (Finite false 6 0)].
Proof.
  apply (@getFields_one_per_entry (lit "fromFile") _
           [[(lit "property", VString (lit "id"));
             (lit "width", VNumber (Finite false 4 0))];
            [(lit "property", VString (lit "name"));
             (lit "width", VNumber (Finite false 6 0))]]).
  reflexivity.
Defined.

(** An entry that is [null] or [undefined] cannot be destructured. *)
Lemma getFields_nullish_entry (operation : jsstring) (entries : list value) :
  getFields operation (fieldConfig_of (VNull :: entries)) = Throw TypeError
  /\ getFields operation (fieldConfig_of (VUndefined :: entries))
     = Throw TypeError.
Proof. split; reflexivity. Qed.

(** C10, as stated, fails: a configuration whose [field] is a non-empty
    string has no [field] array, and [getFields] throws on it. *)
Lemma getFields_field_not_array :
  ~ (forall (operation : jsstring) (fieldConfig : value),
        has_field_array fieldConfig = false ->
        getFields operation fieldConfig = Normal []).
Proof.
  intros H.
  specialize (H (lit "toFile")
                (VObject [(lit "field", VString (lit "x"))]) eq_refl).
  vm_compute in H. discriminate H.
Qed.

(** C10 (amended): for every operation, when the configuration is
    [undefined] or [null], or is an object whose [field] is absent or
    falsy, [getFields] returns the empty schema and raises nothing. *)
Theorem getFields_degenerate (operation : jsstring) (fieldConfig : value) :
  fieldConfig = VUndefined
  \/ fieldConfig = VNull
  \/ (exists o, fieldConfig = VObject o
                /\ ToBoolean (get o (lit "field")) = false) ->
  getFields operation fieldConfig = Normal [].
Proof.
  intros [-> | [-> | [o [-> F]]]]; try reflexivity.
  unfold getFields, js_or; simpl. rewrite F. reflexivity.
Qed.

Lemma getFields_degenerate_witness :
  getFields (lit "fromFile") VUndefined = Normal []
  /\ getFields (lit "fromFile") VNull = Normal []
  /\ getFields (lit "toFile") (VObject [(lit "other", VBool true)])
     = Normal [].
Proof.
  split; [|split]; apply getFields_degenerate.
  - left; reflexivity.
  - right; left; reflexivity.
  - right; right. eexists; split; reflexivity.
Defined.

(** A [field] that is truthy and not an array has no [map] method. *)
Lemma getFields_truthy_non_array
    (operation : jsstring) (o : object) :
  ToBoolean (get o (lit "field")) = true ->
  (forall es, get o (lit "field") <> VArray es) ->
  getFields operation (VObject o) = Throw TypeError.
Proof.
  intros T N. unfold getFields, js_or; simpl. rewrite T.
  destruct (get o (lit "field")); try reflexivity.
  exfalso; eapply N; reflexivity.
Qed.

End SchemaClaims.

(** * Numerals *)

Section Scanning.

Lemma span_spec (p : code_unit -> bool) (s a b : jsstring) :
  span p s = (a, b) -> s = a ++ b /\ Forall (fun c => p c = true) a.
Proof.
  revert a b; induction s as [|c r IH]; simpl; intros a b E.
  - inversion E; subst; auto.
  - destruct (p c) eqn:Pc.
    + destruct (span p r) as [a' b'] eqn:Er. inversion E; subst.
      destruct (IH _ _ eq_refl) as [-> F].
      split; [reflexivity | constructor; auto].
    + inversion E; subst; auto.
Qed.

Lemma starts_with_spec (pre s r : jsstring) :
  starts_with pre s = Some r -> s = pre ++ r.
Proof.
  revert s; induction pre as [|c pre IH]; intros [|d s]; simpl;
    try discriminate; try (intros E; inversion E; reflexivity).
  destruct (c =? d) eqn:E; [|discriminate].
  apply N.eqb_eq in E; subst. intros H; rewrite (IH _ H); reflexivity.
Qed.

Lemma trimStart_spec (s : jsstring) :
  exists ws, WhiteSpace ws /\ s = ws ++ trimStart s.
Proof.
  induction s as [|c r [ws [W E]]]; simpl.
  - exists []; split; [constructor | reflexivity].
  - destruct (isWhiteSpace c) eqn:Wc.
    + exists (c :: ws); split; [constructor; auto | simpl; congruence].
    + exists []; split; [constructor | reflexivity].
Qed.

Lemma trimEnd_spec (s : jsstring) :
  exists ws, WhiteSpace ws /\ s = trimEnd s ++ ws.
Proof.
  unfold trimEnd. destruct (trimStart_spec (rev s)) as [ws [W E]].
  exists (rev ws). split; [apply Forall_rev; exact W|].
  apply (f_equal (@rev _)) in E.
  rewrite rev_involutive, rev_app_distr in E. exact E.
Qed.

Lemma TrimString_spec (s : jsstring) :
  exists ws1 ws2,
    WhiteSpace ws1 /\ WhiteSpace ws2 /\ s = ws1 ++ TrimString s ++ ws2.
Proof.
  unfold TrimString.
  destruct (trimStart_spec s) as [ws1 [W1 E1]].
  destruct (trimEnd_spec (trimStart s)) as [ws2 [W2 E2]].
  exists ws1, ws2. repeat split; auto. rewrite <- E2. exact E1.
Qed.

Lemma strip_sign_spec (s r : jsstring) (neg : bool) :
  strip_sign s = (neg, r) -> s = r \/ s = 43 :: r \/ s = 45 :: r.
Proof.
  destruct s as [|c s]; simpl.
  - intros E; inversion E; auto.
  - destruct (c =? 45) eqn:E1.
    + apply N.eqb_eq in E1; subst. intros E; inversion E; auto.
    + destruct (c =? 43) eqn:E2.
      * apply N.eqb_eq in E2; subst. intros E; inversion E; auto.
      * intros E; inversion E; auto.
Qed.

Lemma signed_digits (s r ds rest : jsstring) (neg : bool) :
  strip_sign s = (neg, r) -> span isDecimalDigit r = (ds, rest) ->
  ds <> [] ->
  exists si, SignedInteger si /\ s = si ++ rest.
Proof.
  intros Es Ed Hne.
  apply span_spec in Ed; destruct Ed as [-> F].
  assert (D : DecimalDigits ds) by (split; auto).
  apply strip_sign_spec in Es. destruct Es as [-> | [-> | ->]].
  - exists ds; split; [apply SI_digits; auto | reflexivity].
  - exists (43 :: ds); split; [apply SI_plus; auto | reflexivity].
  - exists (45 :: ds); split; [apply SI_minus; auto | reflexivity].
Qed.

Lemma scanExponent_spec (s r : jsstring) (e : Z) :
  scanExponent s = (e, r) ->
  exists ep, optional ExponentPart ep /\ s = ep ++ r.
Proof.
  destruct s as [|c s]; simpl.
  - intros E; inversion E. exists []; split; [constructor | reflexivity].
  - destruct ((c =? 101) || (c =? 69)) eqn:Ec.
    + destruct (strip_sign s) as [eneg r1] eqn:Es.
      destruct (span isDecimalDigit r1) as [ds r2] eqn:Ed.
      destruct ds as [|d ds].
      * intros E; inversion E. exists []; split; [constructor | reflexivity].
      * intros E; inversion E; subst.
        destruct (signed_digits _ Es Ed) as [si [Hsi ->]]; [discriminate|].
        exists (c :: si). split; [|reflexivity].
        apply opt_present. constructor; auto.
        apply orb_true_iff in Ec. rewrite !N.eqb_eq in Ec. exact Ec.
    + intros E; inversion E. exists []; split; [constructor | reflexivity].
Qed.

Lemma scanInteger_spec (neg : bool) (ip r1 r : jsstring) (n : number) :
  Forall (fun c => isDecimalDigit c = true) ip ->
  scanInteger neg ip r1 = Some (n, r) ->
  exists u, StrUnsignedDecimalLiteral u /\ ip ++ r1 = u ++ r.
Proof.
  intros F. unfold scanInteger. destruct ip as [|d ip]; [discriminate|].
  destruct (scanExponent r1) as [e r4] eqn:Ee. intros E; inversion E; subst.
  apply scanExponent_spec in Ee. destruct Ee as [ep [Hep ->]].
  exists ((d :: ip) ++ ep). split; [|rewrite app_assoc; reflexivity].
  apply SUDL_int; auto. split; [discriminate | exact F].
Qed.

Lemma scanFraction_spec (neg : bool) (ip r2 r : jsstring) (n : number) :
  Forall (fun c => isDecimalDigit c = true) ip ->
  scanFraction neg ip r2 = Some (n, r) ->
  exists u, StrUnsignedDecimalLiteral u /\ ip ++ 46 :: r2 = u ++ r.
Proof.
  intros F. unfold scanFraction.
  destruct (span isDecimalDigit r2) as [fp r3] eqn:Ef.
  apply span_spec in Ef. destruct Ef as [-> Ff].
  destruct (ip ++ fp) as [|x xs] eqn:Eip; [discriminate|].
  destruct (scanExponent r3) as [e r4] eqn:Ee. intros E; inversion E; subst.
  apply scanExponent_spec in Ee. destruct Ee as [ep [Hep ->]].
  destruct ip as [|d ip].
  - simpl in Eip. subst fp.
    exists (46 :: (x :: xs) ++ ep). split.
    + apply SUDL_dot_frac; auto. split; [discriminate | exact Ff].
    + simpl. rewrite <- app_assoc. reflexivity.
  - exists ((d :: ip) ++ 46 :: fp ++ ep). split.
    + apply SUDL_int_dot; auto.
      * split; [discriminate | exact F].
      * destruct fp; [apply opt_absent | apply opt_present].
        split; [discriminate | exact Ff].
    + rewrite <- !app_assoc. simpl. rewrite <- app_assoc. reflexivity.
Qed.

Lemma scanUnsignedDecimal_spec (neg : bool) (s r : jsstring) (n : number) :
  scanUnsignedDecimal neg s = Some (n, r) ->
  exists u, StrUnsignedDecimalLiteral u /\ s = u ++ r.
Proof.
  unfold scanUnsignedDecimal.
  destruct (starts_with (lit "Infinity") s) as [r0|] eqn:Ei.
  - intros E; inversion E; subst. apply starts_with_spec in Ei.
    exists (lit "Infinity"). split; [constructor | exact Ei].
  - destruct (span isDecimalDigit s) as [ip r1] eqn:Es.
    apply span_spec in Es. destruct Es as [-> F].
    destruct r1 as [|c r2]; [apply scanInteger_spec; exact F|].
    destruct (c =? 46) eqn:Ec.
    + apply N.eqb_eq in Ec; subst. apply scanFraction_spec; exact F.
    + apply scanInteger_spec; exact F.
Qed.

Lemma scanStrDecimalLiteral_spec (s r : jsstring) (n : number) :
  scanStrDecimalLiteral s = Some (n, r) ->
  exists l, StrDecimalLiteral l /\ s = l ++ r.
Proof.
  unfold scanStrDecimalLiteral.
  destruct (strip_sign s) as [neg s1] eqn:Es. intros E.
  apply scanUnsignedDecimal_spec in E. destruct E as [u [Hu ->]].
  apply strip_sign_spec in Es. destruct Es as [-> | [-> | ->]].
  - exists u; split; [apply SDL_unsigned; auto | reflexivity].
  - exists (43 :: u); split; [apply SDL_plus; auto | reflexivity].
  - exists (45 :: u); split; [apply SDL_minus; auto | reflexivity].
Qed.

Lemma forallb_Digits (p : code_unit -> bool) (ds : jsstring) :
  ds <> [] -> forallb p ds = true -> Digits p ds.
Proof.
  intros N F. split; [exact N|].
  apply Forall_forall. apply forallb_forall. exact F.
Qed.

Lemma scanNonDecimal_spec (s : jsstring) (n : number) :
  scanNonDecimal s = Some n -> NonDecimalIntegerLiteral s.
Proof.
  destruct s as [|z [|p body]]; simpl; try discriminate.
  destruct (z =? 48) eqn:Ez; simpl; [|discriminate].
  apply N.eqb_eq in Ez; subst z.
  destruct body as [|d ds]; [discriminate|].
  set (body := d :: ds).
  assert (Hne : body <> []) by discriminate.
  destruct (((p =? 98) || (p =? 66)) && forallb isBinaryDigit body) eqn:Eb.
  { intros _. apply andb_true_iff in Eb. destruct Eb as [Ep Ed].
    apply orb_true_iff in Ep. rewrite !N.eqb_eq in Ep.
    apply NDIL_binary; auto using forallb_Digits. }
  destruct (((p =? 111) || (p =? 79)) && forallb isOctalDigit body) eqn:Eo.
  { intros _. apply andb_true_iff in Eo. destruct Eo as [Ep Ed].
    apply orb_true_iff in Ep. rewrite !N.eqb_eq in Ep.
    apply NDIL_octal; auto using forallb_Digits. }
  destruct (((p =? 120) || (p =? 88)) && forallb isHexDigit body) eqn:Eh.
  { intros _. apply andb_true_iff in Eh. destruct Eh as [Ep Ed].
    apply orb_true_iff in Ep. rewrite !N.eqb_eq in Ep.
    apply NDIL_hex; auto using forallb_Digits. }
  discriminate.
Qed.

(** Facts on single code units are decided by arithmetic. *)
Ltac code_units :=
  unfold isHexDigit, isDecimalDigit, isBinaryDigit, isOctalDigit,
    isWhiteSpace in *;
  repeat rewrite ?andb_true_iff, ?orb_true_iff, ?andb_false_iff,
    ?orb_false_iff, ?N.eqb_eq, ?N.eqb_neq, ?N.leb_le, ?N.leb_gt in *;
  lia.

Lemma digit_not_ws (c : code_unit) :
  isHexDigit c = true -> isWhiteSpace c = false.
Proof. intros H. code_units. Qed.

Lemma decimal_is_hex (c : code_unit) :
  isDecimalDigit c = true -> isHexDigit c = true.
Proof. intros H. code_units. Qed.

Lemma binary_is_hex (c : code_unit) :
  isBinaryDigit c = true -> isHexDigit c = true.
Proof. intros H. code_units. Qed.

Lemma octal_is_hex (c : code_unit) :
  isOctalDigit c = true -> isHexDigit c = true.
Proof. intros H. code_units. Qed.

Lemma trimStart_ws_app (ws s : jsstring) :
  WhiteSpace ws -> trimStart (ws ++ s) = trimStart s.
Proof.
  induction 1 as [|c ws Hc _ IH]; simpl; [reflexivity|].
  rewrite Hc. exact IH.
Qed.

Lemma trimStart_head (c : code_unit) (r : jsstring) :
  isWhiteSpace c = false -> trimStart (c :: r) = c :: r.
Proof. intros H; simpl; rewrite H; reflexivity. Qed.

Lemma trimStart_ws (ws : jsstring) : WhiteSpace ws -> trimStart ws = [].
Proof.
  intros W. rewrite <- (app_nil_r ws). rewrite trimStart_ws_app; auto.
Qed.

Lemma trimEnd_last (l ws : jsstring) (c : code_unit) :
  isWhiteSpace c = false -> WhiteSpace ws ->
  trimEnd ((l ++ [c]) ++ ws) = l ++ [c].
Proof.
  intros Hc W. unfold trimEnd.
  rewrite !rev_app_distr. simpl.
  rewrite trimStart_ws_app by (apply Forall_rev; exact W).
  rewrite trimStart_head by exact Hc.
  simpl. rewrite rev_involutive. reflexivity.
Qed.

(** A string that begins and ends with something else than white space. *)
Definition solid (l : jsstring) : Prop :=
  (exists c r, l = c :: r /\ isWhiteSpace c = false)
  /\ (exists r c, l = r ++ [c] /\ isWhiteSpace c = false).

Lemma TrimString_solid (ws1 l ws2 : jsstring) :
  WhiteSpace ws1 -> WhiteSpace ws2 -> solid l ->
  TrimString (ws1 ++ l ++ ws2) = l.
Proof.
  intros W1 W2 [[c [r [E Hc]]] [r' [c' [E' Hc']]]]. unfold TrimString.
  rewrite trimStart_ws_app by exact W1.
  assert (T : trimStart (l ++ ws2) = l ++ ws2)
    by (rewrite E; simpl; rewrite Hc; reflexivity).
  rewrite T, E'. apply trimEnd_last; auto.
Qed.

Lemma solid_cons (c : code_unit) (l : jsstring) :
  isWhiteSpace c = false -> l = [] \/ solid l -> solid (c :: l).
Proof.
  intros Hc [-> | [_ [r [c' [-> Hc']]]]]; split; eauto.
  - exists [], c; auto.
  - exists (c :: r), c'; auto.
Qed.

Lemma solid_app (a b : jsstring) :
  solid a -> b = [] \/ solid b -> solid (a ++ b).
Proof.
  intros Sa [-> | Sb]; [rewrite app_nil_r; exact Sa|].
  destruct Sa as [[c [r [-> Hc]]] _], Sb as [_ [r' [c' [-> Hc']]]].
  split.
  - exists c, (r ++ r' ++ [c']); auto.
  - exists ((c :: r) ++ r'), c'. rewrite <- app_assoc; auto.
Qed.

Lemma Digits_solid (p : code_unit -> bool) (ds : jsstring) :
  (forall c, p c = true -> isHexDigit c = true) ->
  Digits p ds -> solid ds.
Proof.
  intros Hp [N F]. split.
  - destruct ds as [|c r]; [congruence|]. inversion F; subst.
    exists c, r; auto using digit_not_ws.
  - destruct (exists_last N) as [r [c ->]].
    apply Forall_app in F. destruct F as [_ F]. inversion F; subst.
    exists r, c; auto using digit_not_ws.
Qed.

Lemma DecimalDigits_solid (ds : jsstring) : DecimalDigits ds -> solid ds.
Proof. apply Digits_solid, decimal_is_hex. Qed.

Lemma optional_solid (P : jsstring -> Prop) (s : jsstring) :
  (forall x, P x -> solid x) -> optional P s -> s = [] \/ solid s.
Proof. intros H [|x Hx]; auto. Qed.

Lemma SignedInteger_solid (si : jsstring) : SignedInteger si -> solid si.
Proof.
  intros [ds D | ds D | ds D]; auto using DecimalDigits_solid;
    apply solid_cons; auto using DecimalDigits_solid.
Qed.

Lemma ExponentPart_solid (e : jsstring) : ExponentPart e -> solid e.
Proof.
  intros [c si Hc Hsi]. apply solid_cons; auto using SignedInteger_solid.
  destruct Hc; subst; reflexivity.
Qed.

Lemma StrUnsignedDecimalLiteral_solid (u : jsstring) :
  StrUnsignedDecimalLiteral u -> solid u.
Proof.
  intros [|i f e Di Df De | f e Df De | i e Di De].
  - split; [exists 73, (lit "nfinity") | exists (lit "Infinit"), 121];
      split; reflexivity.
  - apply solid_app; auto using DecimalDigits_solid. right.
    apply solid_cons; [reflexivity|].
    apply (optional_solid DecimalDigits_solid) in Df.
    apply (optional_solid ExponentPart_solid) in De.
    destruct Df as [-> | Sf]; [exact De|].
    right; apply solid_app; auto.
  - apply solid_cons; [reflexivity|]. right.
    apply solid_app; auto using DecimalDigits_solid.
    apply (optional_solid ExponentPart_solid); auto.
  - apply solid_app; auto using DecimalDigits_solid.
    apply (optional_solid ExponentPart_solid); auto.
Qed.

Lemma StrNumericLiteral_solid (l : jsstring) :
  StrNumericLiteral l -> solid l.
Proof.
  intros [l' [u Hu | u Hu | u Hu] | l' H].
  - apply StrUnsignedDecimalLiteral_solid; auto.
  - apply solid_cons; auto using StrUnsignedDecimalLiteral_solid.
  - apply solid_cons; auto using StrUnsignedDecimalLiteral_solid.
  - destruct H as [q ds Hq D | q ds Hq D | q ds Hq D];
      (apply solid_cons; [reflexivity|]; right;
       apply solid_cons; [destruct Hq; subst; reflexivity|]; right;
       revert D; apply Digits_solid;
       auto using binary_is_hex, octal_is_hex).
Qed.

(** *** The scanners find every numeral *)

Lemma span_exact (p : code_unit -> bool) (ds r : jsstring) :
  Forall (fun c => p c = true) ds ->
  match r with [] => True | c :: _ => p c = false end ->
  span p (ds ++ r) = (ds, r).
Proof.
  induction 1 as [|d ds Hd _ IH]; simpl; intros Hr.
  - destruct r; simpl; [reflexivity | rewrite Hr; reflexivity].
  - rewrite Hd, IH by exact Hr. reflexivity.
Qed.

Lemma span_head (p : code_unit -> bool) (d : code_unit) (r : jsstring) :
  p d = true -> exists a b, span p (d :: r) = (d :: a, b).
Proof. intros H; simpl; rewrite H; destruct (span p r); eauto. Qed.

Lemma strip_sign_unsigned (c : code_unit) (r : jsstring) :
  isDecimalDigit c = true \/ c = 46 \/ c = 73 ->
  strip_sign (c :: r) = (false, c :: r).
Proof.
  intros H. simpl.
  assert (E1 : (c =? 45) = false) by (destruct H as [H | [-> | ->]]; code_units).
  assert (E2 : (c =? 43) = false) by (destruct H as [H | [-> | ->]]; code_units).
  rewrite E1, E2. reflexivity.
Qed.

Lemma Digits_head (p : code_unit -> bool) (ds : jsstring) :
  Digits p ds -> exists d r, ds = d :: r /\ p d = true.
Proof.
  intros [N F]. destruct ds as [|d r]; [congruence|].
  inversion F; subst; eauto.
Qed.

Lemma Digits_forallb (p : code_unit -> bool) (ds : jsstring) :
  Digits p ds -> forallb p ds = true.
Proof.
  intros [_ F]. apply forallb_forall. apply Forall_forall. exact F.
Qed.

(** A signed integer in front of [rest] is consumed up to [rest] when
    [rest] does not go on with a digit. *)
Lemma SignedInteger_scan (si rest : jsstring) :
  SignedInteger si ->
  exists neg d ds,
    strip_sign (si ++ rest) = (neg, (d :: ds) ++ rest)
    /\ Forall (fun c => isDecimalDigit c = true) (d :: ds).
Proof.
  intros [ds D | ds D | ds D];
    destruct (Digits_head D) as [d [r [-> Hd]]]; destruct D as [_ F].
  - exists false, d, r. split; [|exact F].
    rewrite <- app_comm_cons. apply strip_sign_unsigned; auto.
  - exists false, d, r. split; [reflexivity | exact F].
  - exists true, d, r. split; [reflexivity | exact F].
Qed.

Lemma optional_ExponentPart_head (e : jsstring) :
  optional ExponentPart e ->
  match e with
  | [] => True
  | c :: _ => isDecimalDigit c = false /\ (c =? 46) = false
  end.
Proof.
  intros [|x [c si [-> | ->] _]]; simpl; auto.
Qed.

Lemma scanExponent_exact (e : jsstring) :
  optional ExponentPart e -> exists z, scanExponent e = (z, []).
Proof.
  intros [|x [c si Hc Hsi]]; [exists 0%Z; reflexivity|].
  destruct (SignedInteger_scan [] Hsi) as [neg [d [ds [Es F]]]].
  rewrite !app_nil_r in Es.
  unfold scanExponent.
  assert (Ec : (c =? 101) || (c =? 69) = true)
    by (destruct Hc; subst; reflexivity).
  rewrite Ec, Es.
  rewrite <- (app_nil_r (d :: ds)), (@span_exact isDecimalDigit (d :: ds) [] F I).
  eexists; reflexivity.
Qed.

Lemma starts_with_Infinity_None (c : code_unit) (r : jsstring) :
  c <> 73 -> starts_with (lit "Infinity") (c :: r) = None.
Proof.
  intros N.
  change (starts_with (lit "Infinity") (c :: r))
    with (if 73 =? c then starts_with (lit "nfinity") r else None).
  destruct (N.eqb_spec 73 c); [congruence | reflexivity].
Qed.

Lemma optional_DecimalDigits_Forall (f : jsstring) :
  optional DecimalDigits f -> Forall (fun c => isDecimalDigit c = true) f.
Proof. intros [|x [_ F]]; auto. Qed.

Lemma scanFraction_exact (neg : bool) (ip f e : jsstring) :
  ip ++ f <> [] ->
  Forall (fun c => isDecimalDigit c = true) f ->
  optional ExponentPart e ->
  exists m x, scanFraction neg ip (f ++ e) = Some (Finite neg m x, []).
Proof.
  intros N F He. unfold scanFraction.
  rewrite (@span_exact isDecimalDigit f e F).
  2:{ apply optional_ExponentPart_head in He. destruct e; tauto. }
  destruct (ip ++ f) eqn:E; [congruence|].
  destruct (scanExponent_exact He) as [z ->]. eauto.
Qed.

Lemma scanInteger_exact (neg : bool) (ip e : jsstring) :
  ip <> [] -> optional ExponentPart e ->
  exists m x, scanInteger neg ip e = Some (Finite neg m x, []).
Proof.
  intros N He. unfold scanInteger. destruct ip; [congruence|].
  destruct (scanExponent_exact He) as [z ->]. eauto.
Qed.

Lemma scanUnsignedDecimal_exact (neg : bool) (u : jsstring) :
  StrUnsignedDecimalLiteral u ->
  exists n, scanUnsignedDecimal neg u = Some (n, []) /\ n <> NaN.
Proof.
  intros [|i f e Di Df De | f e Df De | i e Di De].
  - exists (Infinity neg). split; [reflexivity | discriminate].
  - destruct (Digits_head Di) as [d [r [-> Hd]]]. destruct Di as [Ni Fi].
    unfold scanUnsignedDecimal.
    rewrite <- app_comm_cons, starts_with_Infinity_None by code_units.
    rewrite app_comm_cons, (@span_exact isDecimalDigit _ _ Fi) by reflexivity.
    cbv beta iota zeta. rewrite N.eqb_refl.
    destruct (@scanFraction_exact neg (d :: r) f e) as [m [x ->]];
      auto using optional_DecimalDigits_Forall; [discriminate|].
    eexists; split; [reflexivity | discriminate].
  - unfold scanUnsignedDecimal.
    rewrite starts_with_Infinity_None by discriminate.
    change (span isDecimalDigit (46 :: f ++ e)) with ([] : jsstring, 46 :: f ++ e).
    cbv beta iota zeta. rewrite N.eqb_refl.
    destruct (@scanFraction_exact neg [] f e) as [m [x ->]]; auto.
    + destruct Df; auto.
    + destruct Df; auto.
    + eexists; split; [reflexivity | discriminate].
  - destruct (Digits_head Di) as [d [r [-> Hd]]]. destruct Di as [Ni Fi].
    unfold scanUnsignedDecimal.
    rewrite <- app_comm_cons, starts_with_Infinity_None by code_units.
    rewrite app_comm_cons.
    pose proof (optional_ExponentPart_head De) as Hh.
    rewrite (@span_exact isDecimalDigit _ _ Fi) by (destruct e; tauto).
    destruct (@scanInteger_exact neg (d :: r) e) as [m [x Es]]; auto.
    destruct e as [|c e']; cbv beta iota zeta; [|destruct Hh as [_ ->]];
      rewrite Es; eexists; split; try reflexivity; discriminate.
Qed.

Lemma StrUnsignedDecimalLiteral_head (u : jsstring) :
  StrUnsignedDecimalLiteral u ->
  exists c r, u = c :: r
              /\ ((isDecimalDigit c = true \/ c = 46 \/ c = 73)
                  /\ (c = 46 -> exists d r', r = d :: r'
                                            /\ isDecimalDigit d = true)
                  /\ (c = 73 -> exists r', u = lit "Infinity" ++ r')).
Proof.
  intros [|i f e Di Df De | f e Df De | i e Di De].
  - exists 73, (lit "nfinity"). split; [reflexivity|].
    split; [auto|]. split; [discriminate|]. intros _. exists []; reflexivity.
  - destruct (Digits_head Di) as [d [r [-> Hd]]].
    exists d, (r ++ 46 :: f ++ e). split; [reflexivity|].
    split; [auto|]. split; intros ->; discriminate Hd.
  - destruct (Digits_head Df) as [d [r [-> Hd]]].
    exists 46, ((d :: r) ++ e). split; [reflexivity|].
    split; [auto|]. split; [|discriminate]. intros _. exists d, (r ++ e); auto.
  - destruct (Digits_head Di) as [d [r [-> Hd]]].
    exists d, (r ++ e). split; [reflexivity|].
    split; [auto|]. split; intros ->; discriminate Hd.
Qed.

Lemma scanStrDecimalLiteral_exact (l : jsstring) :
  StrDecimalLiteral l ->
  exists n, scanStrDecimalLiteral l = Some (n, []) /\ n <> NaN.
Proof.
  intros [u Hu | u Hu | u Hu]; unfold scanStrDecimalLiteral.
  - destruct (StrUnsignedDecimalLiteral_head Hu) as [c [r [E [Hc _]]]].
    assert (Es : strip_sign u = (false, u))
      by (rewrite E; apply strip_sign_unsigned; exact Hc).
    rewrite Es. apply scanUnsignedDecimal_exact; exact Hu.
  - simpl. apply scanUnsignedDecimal_exact; exact Hu.
  - simpl. apply scanUnsignedDecimal_exact; exact Hu.
Qed.

(** Whatever [parseInt(v, 10)] reads is an integer numeral. *)
Lemma parseInt10_sound (v : jsstring) :
  parseInt10 v <> NaN -> parses_as CastInteger v.
Proof.
  unfold parseInt10, parses_as.
  destruct (trimStart_spec v) as [ws [W E]].
  destruct (strip_sign (trimStart v)) as [neg S1] eqn:Es.
  destruct (span isDecimalDigit S1) as [Z rest] eqn:Ed.
  destruct Z as [|d ds]; [congruence|]. intros _.
  destruct (signed_digits _ Es Ed) as [si [Hsi Esi]]; [discriminate|].
  exists ws, si, rest. rewrite <- Esi. auto.
Qed.

(** Whatever [parseFloat(v)] reads is a decimal numeral. *)
Lemma parseFloat_sound (v : jsstring) :
  parseFloat v <> NaN -> parses_as CastFloat v.
Proof.
  unfold parseFloat, parses_as.
  destruct (trimStart_spec v) as [ws [W E]].
  destruct (scanStrDecimalLiteral (trimStart v)) as [[n r]|] eqn:Es;
    [|congruence].
  intros _. apply scanStrDecimalLiteral_spec in Es.
  destruct Es as [l [Hl El]].
  exists ws, l, r. rewrite <- El. auto.
Qed.

(** Whatever [Number(v)] converts is a numeral from end to end. *)
Lemma StringToNumber_sound (v : jsstring) :
  StringToNumber v <> NaN -> parses_as CastNumber v.
Proof.
  unfold StringToNumber, parses_as.
  destruct (TrimString_spec v) as [ws1 [ws2 [W1 [W2 E]]]].
  destruct (TrimString v) as [|c s] eqn:Et.
  - intros _. rewrite E. apply SNumL_blank. apply Forall_app; auto.
  - cbv zeta.
    destruct (scanNonDecimal (c :: s)) as [n|] eqn:En.
    + intros _. rewrite E. apply SNumL_literal; auto.
      apply SNL_non_decimal. eapply scanNonDecimal_spec; eauto.
    + destruct (scanStrDecimalLiteral (c :: s)) as [[n [|x r]]|] eqn:Es;
        try congruence.
      intros _. rewrite E. apply SNumL_literal; auto.
      apply SNL_decimal. apply scanStrDecimalLiteral_spec in Es.
      destruct Es as [l [Hl El]]. rewrite app_nil_r in El.
      rewrite El. exact Hl.
Qed.

Lemma scanUnsignedDecimal_digit (neg : bool) (d : code_unit) (s : jsstring) :
  isDecimalDigit d = true ->
  exists n r, scanUnsignedDecimal neg (d :: s) = Some (n, r).
Proof.
  intros Hd. unfold scanUnsignedDecimal.
  destruct (starts_with (lit "Infinity") (d :: s)); [eauto|].
  destruct (@span_head isDecimalDigit d s Hd) as [a [b ->]].
  assert (I : exists n r, scanInteger neg (d :: a) b = Some (n, r))
    by (unfold scanInteger; destruct (scanExponent b); eauto).
  destruct b as [|c r2]; [exact I|].
  destruct (c =? 46); [|exact I].
  unfold scanFraction. destruct (span isDecimalDigit r2) as [fp r3].
  rewrite <- app_comm_cons. destruct (scanExponent r3); eauto.
Qed.

Lemma scanUnsignedDecimal_dot (neg : bool) (d : code_unit) (s : jsstring) :
  isDecimalDigit d = true ->
  exists n r, scanUnsignedDecimal neg (46 :: d :: s) = Some (n, r).
Proof.
  intros Hd. unfold scanUnsignedDecimal.
  rewrite starts_with_Infinity_None by discriminate.
  change (span isDecimalDigit (46 :: d :: s))
    with ([] : jsstring, 46 :: d :: s).
  cbv beta iota zeta. rewrite N.eqb_refl. unfold scanFraction.
  destruct (@span_head isDecimalDigit d s Hd) as [a [b ->]].
  simpl app. destruct (scanExponent b); eauto.
Qed.

(** In front of anything, a numeral is found. *)
Lemma scanUnsignedDecimal_prefix (neg : bool) (u rest : jsstring) :
  StrUnsignedDecimalLiteral u ->
  exists n r, scanUnsignedDecimal neg (u ++ rest) = Some (n, r).
Proof.
  intros Hu.
  destruct (StrUnsignedDecimalLiteral_head Hu)
    as [c [r [E [[Hc | [-> | ->]] [Hdot HI]]]]].
  - rewrite E, <- app_comm_cons. apply scanUnsignedDecimal_digit; exact Hc.
  - destruct (Hdot eq_refl) as [d [r' [-> Hd]]].
    rewrite E, <- !app_comm_cons. apply scanUnsignedDecimal_dot; exact Hd.
  - destruct (HI eq_refl) as [r' ->]. rewrite <- app_assoc.
    exists (Infinity neg), (r' ++ rest). reflexivity.
Qed.

Lemma scanUnsignedDecimal_number (neg : bool) (s r : jsstring) (n : number) :
  scanUnsignedDecimal neg s = Some (n, r) -> n <> NaN.
Proof.
  unfold scanUnsignedDecimal, scanFraction, scanInteger.
  destruct (starts_with (lit "Infinity") s);
    [intros E; inversion E; discriminate|].
  destruct (span isDecimalDigit s) as [ip r1].
  assert (I : match ip with
              | [] => None
              | _ :: _ =>
                  let (e, r4) := scanExponent r1 in
                  Some (Finite neg (digitsValue 10 ip) e, r4)
              end = Some (n, r) -> n <> NaN).
  { destruct ip; [discriminate|]. destruct (scanExponent r1).
    intros E; inversion E; discriminate. }
  destruct r1 as [|c r2]; [exact I|].
  destruct (c =? 46); [|exact I].
  destruct (span isDecimalDigit r2) as [fp r3].
  destruct (ip ++ fp); [discriminate|]. destruct (scanExponent r3).
  intros E; inversion E; discriminate.
Qed.

Lemma scanStrDecimalLiteral_number (s r : jsstring) (n : number) :
  scanStrDecimalLiteral s = Some (n, r) -> n <> NaN.
Proof.
  unfold scanStrDecimalLiteral. destruct (strip_sign s).
  apply scanUnsignedDecimal_number.
Qed.

Lemma scanStrDecimalLiteral_prefix (l rest : jsstring) :
  StrDecimalLiteral l ->
  exists n r, scanStrDecimalLiteral (l ++ rest) = Some (n, r).
Proof.
  intros [u Hu | u Hu | u Hu]; unfold scanStrDecimalLiteral.
  - destruct (StrUnsignedDecimalLiteral_head Hu) as [c [r [E [Hc _]]]].
    assert (Es : strip_sign (u ++ rest) = (false, u ++ rest))
      by (rewrite E, <- app_comm_cons; apply strip_sign_unsigned; exact Hc).
    rewrite Es. apply scanUnsignedDecimal_prefix; exact Hu.
  - simpl. apply scanUnsignedDecimal_prefix; exact Hu.
  - simpl. apply scanUnsignedDecimal_prefix; exact Hu.
Qed.

Lemma scanNonDecimal_complete (l : jsstring) :
  NonDecimalIntegerLiteral l -> exists n, scanNonDecimal l = Some n.
Proof.
  intros [q ds Hq D | q ds Hq D | q ds Hq D];
    pose proof (Digits_forallb D) as Fb;
    destruct (Digits_head D) as [d [r [E _]]];
    unfold scanNonDecimal; rewrite N.eqb_refl; cbv beta iota; simpl negb;
    cbv beta iota; rewrite E; rewrite E in Fb; cbv beta iota.
  - assert (Eq : (q =? 98) || (q =? 66) = true)
      by (destruct Hq; subst; reflexivity).
    rewrite Eq, Fb. simpl; eauto.
  - assert (Eq : (q =? 111) || (q =? 79) = true)
      by (destruct Hq; subst; reflexivity).
    destruct (_ && _); [eauto|]. rewrite Eq, Fb. simpl; eauto.
  - assert (Eq : (q =? 120) || (q =? 88) = true)
      by (destruct Hq; subst; reflexivity).
    destruct (_ && _); [eauto|]. destruct (_ && _); [eauto|].
    rewrite Eq, Fb. simpl; eauto.
Qed.

Lemma scanNonDecimal_number (s : jsstring) (n : number) :
  scanNonDecimal s = Some n -> n <> NaN.
Proof.
  unfold scanNonDecimal.
  destruct s as [|z [|q body]]; try discriminate.
  destruct (negb (z =? 48)); [discriminate|].
  destruct body; [discriminate|].
  repeat (destruct (_ && _); [intros E; inversion E; discriminate|]).
  discriminate.
Qed.

(** [parseInt(v, 10)] reads every integer numeral. *)
Lemma parseInt10_complete (v : jsstring) :
  parses_as CastInteger v -> parseInt10 v <> NaN.
Proof.
  intros [ws [si [rest [W [Hsi ->]]]]]. unfold parseInt10.
  rewrite trimStart_ws_app by exact W.
  destruct (SignedInteger_solid Hsi) as [[c [r [E Hc]]] _].
  assert (T : trimStart (si ++ rest) = si ++ rest)
    by (rewrite E, <- app_comm_cons; apply trimStart_head; exact Hc).
  rewrite T.
  destruct (SignedInteger_scan rest Hsi) as [neg [d [ds [-> F]]]].
  inversion F as [|? ? Hd _]; subst. rewrite <- app_comm_cons.
  destruct (@span_head isDecimalDigit d (ds ++ rest) Hd) as [a [b ->]].
  discriminate.
Qed.

(** [parseFloat(v)] reads every decimal numeral. *)
Lemma parseFloat_complete (v : jsstring) :
  parses_as CastFloat v -> parseFloat v <> NaN.
Proof.
  intros [ws [l [rest [W [Hl ->]]]]]. unfold parseFloat.
  rewrite trimStart_ws_app by exact W.
  destruct (StrNumericLiteral_solid (SNL_decimal Hl)) as [[c [r [E Hc]]] _].
  assert (T : trimStart (l ++ rest) = l ++ rest)
    by (rewrite E, <- app_comm_cons; apply trimStart_head; exact Hc).
  rewrite T.
  destruct (scanStrDecimalLiteral_prefix rest Hl) as [n [r' Es]].
  rewrite Es. eapply scanStrDecimalLiteral_number; eauto.
Qed.

Lemma StringToNumber_literal (v l : jsstring) :
  TrimString v = l -> l <> [] ->
  StringToNumber v
  = match scanNonDecimal l with
    | Some n => n
    | None =>
        match scanStrDecimalLiteral l with
        | Some (n, []) => n
        | _ => NaN
        end
    end.
Proof.
  unfold StringToNumber. intros <- N.
  destruct (TrimString v); [congruence | reflexivity].
Qed.

(** [Number(v)] converts every numeral. *)
Lemma StringToNumber_complete (v : jsstring) :
  parses_as CastNumber v -> StringToNumber v <> NaN.
Proof.
  intros [ws W | ws1 l ws2 W1 Hl W2].
  - unfold StringToNumber, TrimString, trimEnd.
    rewrite (trimStart_ws W). simpl. discriminate.
  - pose proof (StrNumericLiteral_solid Hl) as Sl.
    rewrite (@StringToNumber_literal _ l (TrimString_solid W1 W2 Sl))
      by (destruct Sl as [[c [r [-> _]]] _]; discriminate).
    destruct (scanNonDecimal l) as [n|] eqn:En;
      [eapply scanNonDecimal_number; eauto|].
    destruct Hl as [l Hd | l Hn].
    + destruct (scanStrDecimalLiteral_exact Hd) as [n [-> Hn]]. exact Hn.
    + destruct (scanNonDecimal_complete Hn) as [n En']. congruence.
Qed.

(** A numeric cast gives NaN exactly on the strings that do not parse. *)
Lemma numeric_cast_NaN_iff (c : cast_fn) (v : jsstring) :
  c <> CastBoolean ->
  (apply_cast c v = Normal (VNumber NaN) <-> ~ parses_as c v).
Proof.
  intros Hc. destruct c; try congruence; simpl apply_cast; split.
  - intros E P. apply StringToNumber_complete in P. congruence.
  - intros N. destruct (StringToNumber v) eqn:E; auto;
      exfalso; apply N, StringToNumber_sound; congruence.
  - intros E P. apply parseInt10_complete in P. congruence.
  - intros N. destruct (parseInt10 v) eqn:E; auto;
      exfalso; apply N, parseInt10_sound; congruence.
  - intros E P. apply parseFloat_complete in P. congruence.
  - intros N. destruct (parseFloat v) eqn:E; auto;
      exfalso; apply N, parseFloat_sound; congruence.
Qed.

End Scanning.

(** * Casts *)

Section CastClaims.

(** C3: the Boolean cast returns [true] exactly on the non-empty strings,
    and [false] on the empty string. *)
Theorem cast_boolean_nonempty (v : jsstring) :
  (apply_cast CastBoolean v = Normal (VBool true) <-> v <> [])
  /\ apply_cast CastBoolean [] = Normal (VBool false).
Proof.
  split; [|reflexivity].
  destruct v; simpl; split; congruence.
Qed.

(** C4: on a string that does not parse as the numeric type asked for,
    the Number, Float and Integer casts complete normally and give NaN. *)
Theorem numeric_cast_unparsable (c : cast_fn) (v : jsstring) :
  ~ parses_as c v -> apply_cast c v = Normal (VNumber NaN).
Proof.
  intros N. destruct c.
  - apply numeric_cast_NaN_iff; [discriminate | exact N].
  - apply numeric_cast_NaN_iff; [discriminate | exact N].
  - apply numeric_cast_NaN_iff; [discriminate | exact N].
  - exfalso. apply N. exact I.
Qed.

Lemma numeric_cast_unparsable_witness :
  apply_cast CastNumber (lit "12abc") = Normal (VNumber NaN)
  /\ apply_cast CastInteger (lit "abc") = Normal (VNumber NaN)
  /\ apply_cast CastFloat (lit "-.e5") = Normal (VNumber NaN).
Proof.
  split; [|split]; apply numeric_cast_unparsable;
    (apply numeric_cast_NaN_iff; [discriminate | reflexivity]).
Defined.

(** What does parse: the numeric casts are lenient about what follows a
    numeral, and [Number] takes the empty string for 0. *)
Example cast_integer_prefix :
  apply_cast CastInteger (lit "12abc") = Normal (VNumber (Finite false 12 0)).
Proof. reflexivity. Qed.

Example cast_float_prefix :
  apply_cast CastFloat (lit "3.14e2x") = Normal (VNumber (Finite false 314 0)).
Proof. reflexivity. Qed.

Example cast_number_empty :
  apply_cast CastNumber [] = Normal (VNumber (Finite false 0 0)).
Proof. reflexivity. Qed.

(** The cast itself trims nothing: a string of pad characters is a
    non-empty string. *)
Example cast_boolean_blank :
  apply_cast CastBoolean (lit "  ") = Normal (VBool true).
Proof. reflexivity. Qed.

End CastClaims.

(** * Options handed to the codec *)

Section OptionClaims.

Variable options : object.
Variable fields : list Field.

Lemma parserOptions_trim :
  get (parserOptions options fields) (lit "trim") = trim options.
Proof.
  unfold parserOptions.
  rewrite get_set_other by discriminate. apply get_set_same.
Qed.

Lemma stringifyOptions_trim :
  get (stringifyOptions options fields) (lit "trim") = trim options.
Proof.
  unfold stringifyOptions.
  rewrite get_set_other by discriminate. apply get_set_same.
Qed.

Lemma stringifyOptions_pad :
  get (stringifyOptions options fields) (lit "pad") = pad options.
Proof.
  unfold stringifyOptions.
  rewrite !get_set_other by discriminate. apply get_set_same.
Qed.

(** The [pad] constant is not part of the object given to [parse]: there
    [options.pad] goes through as it is. *)
Lemma parserOptions_pad :
  get (parserOptions options fields) (lit "pad") = get options (lit "pad").
Proof.
  unfold parserOptions. rewrite !get_set_other by discriminate. reflexivity.
Qed.

(** C8: the [trim] handed to [parse] and to [stringify] is [true] for
    ['both'], [false] for ['none'], the option itself for ['left'] and
    ['right'], and [true] for anything else, an absent option included. *)
Theorem trim_option_cases :
  exists t,
    get (parserOptions options fields) (lit "trim") = t
    /\ get (stringifyOptions options fields) (lit "trim") = t
    /\ (get options (lit "trim") = VString (lit "both") -> t = VBool true)
    /\ (get options (lit "trim") = VString (lit "none") -> t = VBool false)
    /\ (get options (lit "trim") = VString (lit "left")
        -> t = VString (lit "left"))
    /\ (get options (lit "trim") = VString (lit "right")
        -> t = VString (lit "right"))
    /\ (get options (lit "trim") <> VString (lit "both")
        -> get options (lit "trim") <> VString (lit "none")
        -> get options (lit "trim") <> VString (lit "left")
        -> get options (lit "trim") <> VString (lit "right")
        -> t = VBool true)
    /\ (lookup (lit "trim") options = None -> t = VBool true).
Proof.
  exists (trim options).
  split; [apply parserOptions_trim|].
  split; [apply stringifyOptions_trim|].
  unfold trim, includes_left_right.
  assert (A : lookup (lit "trim") options = None ->
              get options (lit "trim") = VUndefined)
    by (unfold get; intros ->; reflexivity).
  repeat split; try (intros ->; reflexivity).
  - intros N1 N2 N3 N4.
    apply strict_eq_str_false in N1, N2, N3, N4.
    rewrite N1, N2, N3, N4, andb_false_r. reflexivity.
  - intros E. rewrite (A E). reflexivity.
Qed.

(** C9, as stated, fails: the object given to [parse] is built without the
    [pad] constant, so an empty [options.pad] is handed on as the empty
    string, not as one space. *)
Lemma pad_not_defaulted_for_parse :
  ~ (forall (options : object) (fields : list Field),
        lookup (lit "pad") options = None
        \/ get options (lit "pad") = VString [] ->
        get (parserOptions options fields) (lit "pad") = VString (lit " ")).
Proof.
  intros X.
  specialize (X [(lit "pad", VString [])] [] (or_intror eq_refl)).
  vm_compute in X. discriminate X.
Qed.

(** C9 (amended): the [pad] constant, which is the [pad] that [stringify]
    is given, is the configured [pad] when that is truthy, and one space
    when the option is absent or the empty string; it is never the empty
    string.  [parse] is given [options.pad] as it is. *)
Theorem pad_option_cases :
  exists p,
    pad options = p
    /\ get (stringifyOptions options fields) (lit "pad") = p
    /\ (ToBoolean (get options (lit "pad")) = true
        -> p = get options (lit "pad"))
    /\ (lookup (lit "pad") options = None -> p = VString (lit " "))
    /\ (get options (lit "pad") = VString [] -> p = VString (lit " "))
    /\ p <> VString []
    /\ get (parserOptions options fields) (lit "pad")
       = get options (lit "pad").
Proof.
  exists (pad options).
  split; [reflexivity|].
  split; [apply stringifyOptions_pad|].
  unfold pad. repeat split.
  - intros ->; reflexivity.
  - unfold get; intros ->; reflexivity.
  - intros ->; reflexivity.
  - destruct (ToBoolean (get options (lit "pad"))) eqn:T; [|discriminate].
    intros E; rewrite E in T; discriminate T.
  - apply parserOptions_pad.
Qed.

End OptionClaims.

(** * Schema construction over the store *)

Section StoreClaims.

Import Store.

Variable operation : jsstring.

Lemma nth_error_old (h ext : store) (l : loc) :
  (l < List.length h)%nat -> nth_error (h ++ ext) l = nth_error h l.
Proof. intros L. apply nth_error_app1. exact L. Qed.

Lemma nth_error_new (h more : store) (c : cell) :
  nth_error (h ++ c :: more) (List.length h) = Some c.
Proof. rewrite nth_error_app2, Nat.sub_diag by lia. reflexivity. Qed.

Lemma nth_error_new_last (h more : store) (c : cell) :
  nth_error ((h ++ [c]) ++ more) (List.length h) = Some c.
Proof. rewrite <- app_assoc. apply nth_error_new. Qed.

(** *** Nothing that exists is written to *)

Lemma extends_refl (h : store) : extends h h.
Proof. exists []. rewrite app_nil_r. reflexivity. Qed.

Lemma extends_trans (h1 h2 h3 : store) :
  extends h1 h2 -> extends h2 h3 -> extends h1 h3.
Proof.
  intros [a ->] [b ->]. exists (a ++ b). rewrite app_assoc. reflexivity.
Qed.

Lemma frame_ret {A} (a : A) : frame (ret a).
Proof. intros h r h' E. inversion E; subst. apply extends_refl. Qed.

Lemma frame_throw {A} (e : error) : frame (@throw A e).
Proof. intros h r h' E. inversion E; subst. apply extends_refl. Qed.

Lemma frame_alloc (c : cell) : frame (alloc c).
Proof. intros h r h' E. inversion E; subst. exists [c]. reflexivity. Qed.

Lemma frame_read (l : loc) : frame (read l).
Proof. intros h r h' E. inversion E; subst. apply extends_refl. Qed.

Lemma frame_bind {A B} (m : M A) (k : A -> M B) :
  frame m -> (forall a, frame (k a)) -> frame (bind m k).
Proof.
  intros Fm Fk h r h' E. unfold bind in E.
  destruct (m h) as [[a|e] h1] eqn:Em.
  - eapply extends_trans; [eapply Fm; eauto | eapply Fk; eauto].
  - inversion E; subst. eapply Fm; eauto.
Qed.

Lemma frame_mapM {A B} (f : A -> M B) (l : list A) :
  (forall a, frame (f a)) -> frame (mapM f l).
Proof.
  intros Ff. induction l as [|a l IH]; simpl.
  - apply frame_ret.
  - apply frame_bind; [apply Ff|]. intros b.
    apply frame_bind; [apply IH|]. intros bs. apply frame_ret.
Qed.

Lemma frame_GetV (v : sval) (k : jsstring) : frame (GetV v k).
Proof.
  destruct v; simpl; try apply frame_ret; try apply frame_throw.
  apply frame_bind; [apply frame_read|].
  intros [[o|es|f]|]; apply frame_ret.
Qed.

Lemma frame_js_or (a : sval) (b : M sval) : frame b -> frame (js_or a b).
Proof. intros Fb. unfold js_or. destruct (ToBoolean a); auto using frame_ret. Qed.

Lemma frame_array_elems (a : sval) : frame (array_elems a).
Proof.
  destruct a; simpl; try apply frame_throw.
  apply frame_bind; [apply frame_read|].
  intros [[o|es|f]|]; auto using frame_ret, frame_throw.
Qed.

Lemma frame_select_cast (d : sval) : frame (select_cast d).
Proof.
  unfold select_cast.
  repeat (destruct (strict_eq_str d _); [apply frame_alloc|]).
  apply frame_ret.
Qed.

Lemma frame_buildField (e : sval) : frame (buildField operation e).
Proof.
  unfold buildField.
  repeat (apply frame_bind; [apply frame_GetV | intros ?]).
  apply frame_bind; [|intros ?; apply frame_alloc].
  destruct (str_eqb operation (lit "fromFile"));
    auto using frame_select_cast, frame_ret.
Qed.

(** [getFields] only allocates: the store it leaves is the store it was
    given, followed by new cells. *)
Lemma getFields_frame (fieldConfig : sval) :
  frame (getFields operation fieldConfig).
Proof.
  unfold getFields.
  apply frame_bind; [apply frame_js_or, frame_alloc | intros base].
  apply frame_bind; [apply frame_GetV | intros field].
  apply frame_bind; [apply frame_js_or, frame_alloc | intros rawFields].
  apply frame_bind; [apply frame_array_elems | intros elems].
  apply frame_bind; [apply frame_mapM, frame_buildField | intros fields].
  apply frame_alloc.
Qed.

(** *** What a call returns is determined by the configuration *)

Lemma GetV_peek (h ext : store) (v : sval) (k : jsstring) :
  valid h v -> GetV v k (h ++ ext) = (peek h v k, h ++ ext).
Proof.
  intros V. destruct v; simpl; try reflexivity.
  unfold bind, read. simpl in V. rewrite nth_error_old by exact V.
  destruct (nth_error h l) as [[o|es|f]|]; reflexivity.
Qed.

Lemma get_valid (h : store) (o : list (jsstring * sval)) (k : jsstring) :
  Forall (valid h) (List.map snd o) -> valid h (get o k).
Proof.
  unfold get. induction o as [|[k' v] r IH]; simpl; intros F; [exact I|].
  inversion F; subst. destruct (str_eqb k' k); auto.
Qed.

Lemma closed_cell (h : store) (l : loc) (c : cell) :
  closed h -> nth_error h l = Some c -> Forall (valid h) (cell_values c).
Proof.
  intros C E. apply nth_error_In in E.
  unfold closed in C. rewrite Forall_forall in C. auto.
Qed.

Lemma peek_valid (h : store) (v f : sval) (k : jsstring) :
  closed h -> peek h v k = Normal f -> valid h f.
Proof.
  intros C. destruct v; simpl; try discriminate;
    try (intros E; inversion E; exact I).
  destruct (nth_error h l) as [[o|es|g]|] eqn:El;
    intros E; inversion E; subst; try exact I.
  apply get_valid. apply (@closed_cell h l _ C El).
Qed.

Lemma select_cast_spec (d : sval) (s : store) :
  exists c new,
    select_cast d s = (Normal c, s ++ new)
    /\ forall more, view_cast ((s ++ new) ++ more) c = cast_of d.
Proof.
  unfold select_cast, cast_of.
  repeat (destruct (strict_eq_str d _);
          [eexists; eexists; split;
           [reflexivity | intros more; simpl; rewrite nth_error_new_last;
                          reflexivity]|]).
  exists SUndefined, []. rewrite app_nil_r. split; reflexivity.
Qed.

Lemma buildField_spec (h ext : store) (e : sval) :
  valid h e ->
  match field_of operation h e with
  | Throw err => buildField operation e (h ++ ext) = (Throw err, h ++ ext)
  | Normal fv =>
      exists r new,
        buildField operation e (h ++ ext) = (Normal r, (h ++ ext) ++ new)
        /\ forall more, view_field (((h ++ ext) ++ new) ++ more) r = Some fv
  end.
Proof.
  intros V. unfold field_of, buildField.
  unfold bind at 1. rewrite (@GetV_peek h ext e _ V).
  destruct (peek h e (lit "property")) as [p|err] eqn:Ep.
  2:{ destruct e; simpl in Ep; try discriminate;
        try (destruct (nth_error h l) as [[?|?|?]|]; discriminate);
        inversion Ep; reflexivity. }
  unfold bind at 1. rewrite (@GetV_peek h ext e _ V).
  destruct (peek h e (lit "width")) as [w|err] eqn:Ew.
  2:{ destruct e; simpl in Ew; try discriminate;
        try (destruct (nth_error h l) as [[?|?|?]|]; discriminate);
        inversion Ew; reflexivity. }
  unfold bind at 1. rewrite (@GetV_peek h ext e _ V).
  destruct (peek h e (lit "align")) as [a|err] eqn:Ea.
  2:{ destruct e; simpl in Ea; try discriminate;
        try (destruct (nth_error h l) as [[?|?|?]|]; discriminate);
        inversion Ea; reflexivity. }
  unfold bind at 1. rewrite (@GetV_peek h ext e _ V).
  destruct (peek h e (lit "dataType")) as [d|err] eqn:Ed.
  2:{ destruct e; simpl in Ed; try discriminate;
        try (destruct (nth_error h l) as [[?|?|?]|]; discriminate);
        inversion Ed; reflexivity. }
  unfold bind. generalize (h ++ ext). intros s0.
  destruct (str_eqb operation (lit "fromFile")).
  - destruct (select_cast_spec d s0) as [c [new [-> Hc]]].
    exists (SRef (List.length (s0 ++ new))),
           (new ++ [CObject [ (lit "property", p); (lit "width", w);
                              (lit "cast", c); (lit "align", SUndefined) ]]).
    split; [unfold alloc; rewrite (app_assoc s0 new); reflexivity|].
    intros more. rewrite (app_assoc s0 new).
    unfold view_field. rewrite nth_error_new_last.
    change (get _ (lit "cast")) with c.
    rewrite <- (app_assoc (s0 ++ new)). rewrite Hc. reflexivity.
  - eexists; eexists. split; [unfold ret, alloc; reflexivity|].
    intros more. unfold view_field. rewrite nth_error_new_last. reflexivity.
Qed.

Lemma mapM_buildField_spec (h : store) (es : list sval) :
  Forall (valid h) es ->
  forall ext,
    match fields_of operation h es with
    | Throw err =>
        exists new,
          mapM (buildField operation) es (h ++ ext)
          = (Throw err, (h ++ ext) ++ new)
    | Normal fvs =>
        exists rs new,
          mapM (buildField operation) es (h ++ ext)
          = (Normal rs, (h ++ ext) ++ new)
          /\ forall more,
              List.map (view_field (((h ++ ext) ++ new) ++ more)) rs
              = List.map Some fvs
    end.
Proof.
  induction 1 as [|e es Ve _ IH]; intros ext; simpl.
  - exists [], []. rewrite app_nil_r. split; reflexivity.
  - pose proof (@buildField_spec h ext e Ve) as He.
    destruct (field_of operation h e) as [fv|err].
    + destruct He as [r [new [Er Hr]]].
      specialize (IH (ext ++ new)). rewrite app_assoc in IH.
      destruct (fields_of operation h es) as [fvs|err].
      * destruct IH as [rs [new' [Ers Hrs]]].
        exists (r :: rs), (new ++ new').
        unfold bind. rewrite Er, Ers. rewrite (app_assoc (h ++ ext)).
        split; [reflexivity|].
        intros more. simpl. rewrite Hrs.
        rewrite <- (app_assoc ((h ++ ext) ++ new)), Hr. reflexivity.
      * destruct IH as [new' Ers].
        exists (new ++ new'). unfold bind. rewrite Er, Ers.
        rewrite (app_assoc (h ++ ext)). reflexivity.
    + exists []. unfold bind. rewrite He, app_nil_r. reflexivity.
Qed.

Lemma empty_array_run (s : store) :
  exists r new,
    (rawFields <- alloc (CArray []) ;;
     elems <- array_elems rawFields ;;
     fields <- mapM (buildField operation) elems ;;
     alloc (CArray fields))%store s = (r, s ++ new)
    /\ view_result (s ++ new) r = Normal (Some []).
Proof.
  exists (Normal (SRef (List.length (s ++ [CArray []])))),
         [CArray []; CArray []].
  unfold bind, alloc, array_elems, read, bind, ret.
  rewrite (@nth_error_new s [] (CArray [])). simpl mapM. unfold ret.
  rewrite <- app_assoc. split; [reflexivity|].
  simpl view_result. unfold view_schema.
  change (s ++ [CArray []; CArray []]) with (s ++ [CArray []] ++ [CArray []]).
  rewrite app_assoc, (@nth_error_new (s ++ [CArray []]) [] (CArray [])).
  reflexivity.
Qed.

(** A call on the store [h], or on [h] followed by any cells, only appends
    cells and returns the schema that [schema_of] reads from [h]. *)
Lemma getFields_spec (h : store) (fieldConfig : sval) :
  closed h -> valid h fieldConfig ->
  forall ext,
    exists r new,
      getFields operation fieldConfig (h ++ ext) = (r, (h ++ ext) ++ new)
      /\ view_result ((h ++ ext) ++ new) r
         = schema_of operation h fieldConfig.
Proof.
  intros C V ext. unfold getFields, schema_of, rawFields_of, js_or.
  destruct (ToBoolean fieldConfig) eqn:T.
  - unfold bind at 1. unfold ret at 1.
    unfold bind at 1. rewrite (@GetV_peek h ext fieldConfig _ V).
    destruct (peek h fieldConfig (lit "field")) as [f|err] eqn:Ef.
    2:{ exists (Throw err), []. rewrite app_nil_r. split; reflexivity. }
    pose proof (peek_valid _ _ C Ef) as Vf.
    destruct (ToBoolean f) eqn:Tf.
    + unfold bind at 1. unfold ret at 1.
      destruct f as [| |b|n|str|l];
        try (exists (Throw TypeError), []; rewrite app_nil_r;
             split; reflexivity).
      simpl in Vf. unfold bind at 1. unfold array_elems, bind at 1, read.
      rewrite nth_error_old by exact Vf.
      destruct (nth_error h l) as [[o|es|g]|] eqn:El;
        try (exists (Throw TypeError), []; rewrite app_nil_r;
             split; reflexivity).
      pose proof (@mapM_buildField_spec h es (closed_cell _ C El) ext) as Hm.
      unfold ret at 1.
      destruct (fields_of operation h es) as [fvs|err].
      * destruct Hm as [rs [new [Ers Hrs]]].
        exists (Normal (SRef (List.length ((h ++ ext) ++ new)))),
               (new ++ [CArray rs]).
        unfold bind. rewrite Ers. unfold alloc.
        rewrite (app_assoc (h ++ ext)). split; [reflexivity|].
        simpl view_result. unfold view_schema.
        rewrite (@nth_error_new ((h ++ ext) ++ new) [] (CArray rs)).
        rewrite Hrs. reflexivity.
      * destruct Hm as [new Ers].
        exists (Throw err), new. unfold bind. rewrite Ers.
        split; reflexivity.
    + apply empty_array_run.
  - unfold bind at 1. unfold alloc at 1.
    unfold bind at 1. unfold GetV, bind at 1, read.
    rewrite (@nth_error_new (h ++ ext) [] (CObject [])).
    unfold ret at 1. change (ToBoolean (get [] (lit "field"))) with false.
    cbv iota.
    destruct (empty_array_run ((h ++ ext) ++ [CObject []])) as [r [new [E Hv]]].
    exists r, ([CObject []] ++ new).
    rewrite (app_assoc (h ++ ext)). split; [exact E | exact Hv].
Qed.

(** C7: two calls of [getFields] with the same operation and the same
    configuration, the second running in the store the first has left,
    return equal schemas (or throw the same error), and neither call
    changes a cell that existed before it: the configuration is as it was. *)
Theorem getFields_repeatable
    (fieldConfig : sval) (h h1 h2 : store) (r1 r2 : completion sval) :
  closed h -> valid h fieldConfig ->
  getFields operation fieldConfig h = (r1, h1) ->
  getFields operation fieldConfig h1 = (r2, h2) ->
  extends h h1 /\ extends h1 h2
  /\ view_result h1 r1 = view_result h2 r2.
Proof.
  intros C V E1 E2.
  pose proof (getFields_frame fieldConfig _ E1) as X1.
  pose proof (getFields_frame fieldConfig _ E2) as X2.
  split; [exact X1|]. split; [exact X2|].
  destruct X1 as [ext ->].
  destruct (@getFields_spec h fieldConfig C V []) as [ra [na [Ea Ha]]].
  destruct (@getFields_spec h fieldConfig C V ext) as [rb [nb [Eb Hb]]].
  rewrite app_nil_r in Ea, Ha. rewrite E1 in Ea. rewrite E2 in Eb.
  inversion Ea; subst. inversion Eb; subst.
  rewrite Hb. rewrite <- Ha. f_equal. congruence.
Qed.

End StoreClaims.

(** * The store model refines the tree model *)

Section Refinement.

Variable operation : jsstring.

Lemma represents_ToBoolean (h : Store.store) (sv : Store.sval) (v : value) :
  represents h sv v -> Store.ToBoolean sv = ToBoolean v.
Proof. intros []; reflexivity. Qed.

Lemma represents_strict_eq_str (h : Store.store) (sv : Store.sval) (v : value) (s : jsstring) :
  represents h sv v -> Store.strict_eq_str sv s = strict_eq_str v s.
Proof. intros []; reflexivity. Qed.

Lemma represents_get (h : Store.store) (so : list (jsstring * Store.sval)) (o : object)
    (k : jsstring) :
  Forall2 (fun se e => fst se = fst e /\ represents h (snd se) (snd e)) so o ->
  represents h (Store.get so k) (get o k).
Proof.
  unfold Store.get, get.
  induction 1 as [|[k1 sv] [k2 v] so o [Ek R] _ IH]; simpl; [constructor|].
  simpl in Ek, R. subst k2. destruct (str_eqb k1 k); auto.
Qed.

Lemma represents_peek
    (h : Store.store) (sv : Store.sval) (v : value) (k : jsstring) :
  represents h sv v ->
  match GetV v k with
  | Normal x => exists sx, Store.peek h sv k = Normal sx /\ represents h sx x
  | Throw e => Store.peek h sv k = Throw e
  end.
Proof.
  intros [ | |b|n|s|l es vs El F|l so o El F|l f El]; simpl;
    try reflexivity; try rewrite El;
    eauto using represents, represents_get.
Qed.

Lemma represents_cast_of (h : Store.store) (sd : Store.sval) (d : value) :
  represents h sd d -> Store.cast_of sd = select_cast d.
Proof.
  intros R. unfold Store.cast_of, select_cast.
  rewrite !(represents_strict_eq_str _ R). reflexivity.
Qed.

Lemma represents_field_of (h : Store.store) (se : Store.sval) (e : value) :
  represents h se e ->
  match buildField operation e with
  | Normal f =>
      exists fv, Store.field_of operation h se = Normal fv
                 /\ represents_field h fv f
  | Throw err => Store.field_of operation h se = Throw err
  end.
Proof.
  intros R. unfold buildField, Store.field_of.
  pose proof (represents_peek (lit "property") R) as Hp.
  pose proof (represents_peek (lit "width") R) as Hw.
  pose proof (represents_peek (lit "align") R) as Ha.
  pose proof (represents_peek (lit "dataType") R) as Hd.
  destruct (GetV e (lit "property")) as [p|[]];
    [destruct Hp as [sp [-> Rp]] | rewrite Hp; reflexivity].
  destruct (GetV e (lit "width")) as [w|[]];
    [destruct Hw as [sw [-> Rw]] | rewrite Hw; reflexivity].
  destruct (GetV e (lit "align")) as [a|[]];
    [destruct Ha as [sa [-> Ra]] | rewrite Ha; reflexivity].
  destruct (GetV e (lit "dataType")) as [d|[]];
    [destruct Hd as [sd [-> Rd]] | rewrite Hd; reflexivity].
  simpl. eexists; split; [reflexivity|].
  unfold represents_field; simpl.
  rewrite (represents_cast_of Rd).
  repeat split; auto;
    destruct (str_eqb operation (lit "fromFile")); try constructor;
    destruct (str_eqb operation (lit "toFile")); auto; constructor.
Qed.

Lemma represents_fields_of
    (h : Store.store) (ses : list Store.sval) (es : list value) :
  Forall2 (represents h) ses es ->
  match mapM (buildField operation) es with
  | Normal fs =>
      exists fvs, Store.fields_of operation h ses = Normal fvs
                  /\ Forall2 (represents_field h) fvs fs
  | Throw err => Store.fields_of operation h ses = Throw err
  end.
Proof.
  induction 1 as [|se e ses es R _ IH]; simpl.
  - exists []. split; [reflexivity | constructor].
  - pose proof (represents_field_of R) as Hf.
    destruct (buildField operation e) as [f|err]; simpl.
    + destruct Hf as [fv [-> Rf]].
      destruct (mapM (buildField operation) es) as [fs|err]; simpl.
      * destruct IH as [fvs [-> Rfs]]. eexists; split; [reflexivity|].
        constructor; auto.
      * rewrite IH. reflexivity.
    + rewrite Hf. reflexivity.
Qed.

(** What [Store.schema_of] reads from the store is what the tree model
    computes from the tree the store holds. *)
Lemma represents_schema_of
    (h : Store.store) (sc : Store.sval) (fieldConfig : value) :
  represents h sc fieldConfig ->
  match getFields operation fieldConfig with
  | Normal fs =>
      exists fvs,
        Store.schema_of operation h sc = Normal (Some (List.map Some fvs))
        /\ Forall2 (represents_field h) fvs fs
  | Throw err => Store.schema_of operation h sc = Throw err
  end.
Proof.
  intros R. unfold getFields, Store.schema_of, Store.rawFields_of, js_or.
  rewrite (represents_ToBoolean R).
  destruct (ToBoolean fieldConfig) eqn:T.
  - pose proof (represents_peek (lit "field") R) as Hf. simpl.
    destruct (GetV fieldConfig (lit "field")) as [f|[]]; simpl;
      [|rewrite Hf; reflexivity].
    destruct Hf as [sf [-> Rf]]. rewrite (represents_ToBoolean Rf).
    destruct (ToBoolean f) eqn:Tf.
    + destruct Rf as [ | |b|n|s|l es vs El F|l so o El F|l g El]; simpl;
        try reflexivity; try discriminate; rewrite El; try reflexivity.
      pose proof (represents_fields_of F) as Hm.
      destruct (mapM (buildField operation) vs) as [fs|err].
      * destruct Hm as [fvs [-> Rfs]]. eauto.
      * rewrite Hm. reflexivity.
    + simpl. exists []. split; [reflexivity | constructor].
  - simpl. exists []. split; [reflexivity | constructor].
Qed.

(** A call of [Store.getFields] returns a schema that represents the schema
    of the tree model, and throws when the tree model throws. *)
Lemma getFields_refines
    (h h' : Store.store) (sc : Store.sval) (fieldConfig : value)
    (r : completion Store.sval) :
  Store.closed h -> Store.valid h sc -> represents h sc fieldConfig ->
  Store.getFields operation sc h = (r, h') ->
  match getFields operation fieldConfig with
  | Normal fs =>
      exists fvs, Store.view_result h' r = Normal (Some (List.map Some fvs))
                  /\ Forall2 (represents_field h) fvs fs
  | Throw err => Store.view_result h' r = Throw err
  end.
Proof.
  intros C V R E.
  destruct (@getFields_spec operation h sc C V []) as [r0 [new [E0 H0]]].
  rewrite app_nil_r in E0, H0. rewrite E in E0. inversion E0; subst.
  rewrite H0. apply represents_schema_of. exact R.
Qed.

End Refinement.

Lemma getFields_repeatable_witness :
  let h := [ Store.CObject [(lit "field", Store.SRef 1%nat)];
             Store.CArray [Store.SRef 2%nat];
             Store.CObject [ (lit "property", Store.SString (lit "id"));
                             (lit "width", Store.SNumber (Finite false 4 0));
                             (lit "dataType", Store.SString (lit "integer")) ] ] in
  let run1 := Store.getFields (lit "fromFile") (Store.SRef 0%nat) h in
  let run2 := Store.getFields (lit "fromFile") (Store.SRef 0%nat) (snd run1) in
  Store.extends h (snd run1)
  /\ Store.extends (snd run1) (snd run2)
  /\ Store.view_result (snd run1) (fst run1)
     = Store.view_result (snd run2) (fst run2).
Proof.
  intros h run1 run2.
  apply (@getFields_repeatable (lit "fromFile") (Store.SRef 0%nat) h
           (snd run1) (snd run2) (fst run1) (fst run2)).
  - unfold Store.closed, h. repeat constructor; simpl; lia.
  - simpl. lia.
  - apply surjective_pairing.
  - apply surjective_pairing.
Defined.

(** The same configuration in both models: the schema read back from the
    store is the schema the tree model returns. *)
Example getFields_store_run :
  let h := [ Store.CObject [(lit "field", Store.SRef 1%nat)];
             Store.CArray [Store.SRef 2%nat];
             Store.CObject [ (lit "property", Store.SString (lit "id"));
                             (lit "width", Store.SNumber (Finite false 4 0));
                             (lit "dataType", Store.SString (lit "integer")) ] ] in
  let run := Store.getFields (lit "fromFile") (Store.SRef 0%nat) h in
  Store.view_result (snd run) (fst run)
  = Normal (Some [Some (Store.mkView (Store.SString (lit "id"))
                          (Store.SNumber (Finite false 4 0))
                          (Some CastInteger) Store.SUndefined)])
  /\ firstn 3%nat (snd run) = h
  /\ getFields (lit "fromFile")
       (fieldConfig_of
          [VObject [ (lit "property", VString (lit "id"));
                     (lit "width", VNumber (Finite false 4 0));
                     (lit "dataType", VString (lit "integer")) ]])
     = Normal [mkField (VString (lit "id")) (VNumber (Finite false 4 0))
                 (Some CastInteger) VUndefined].
Proof. repeat split. Qed.

(** * [execute] *)

Unset Implicit Arguments.

Section ExecuteFacts.

Import Node.

Variable H : Host.

Lemma fromFile_loop_S (fuel : nat) (items : list item) (itemIndex : nat) :
  fromFile_loop H (S fuel) items itemIndex
  = match nth_error items itemIndex with
    | None => Some (Returned items)
    | Some it =>
        match tryBlock H itemIndex it with
        | Done None => fromFile_loop H fuel items (S itemIndex)
        | Done (Some parsedItems) =>
            fromFile_loop H fuel
              (List.map (parsed_item itemIndex) parsedItems) (S itemIndex)
        | Failed e =>
            if continueOnFail H then
              match inputJson H itemIndex with
              | Done j =>
                  fromFile_loop H fuel
                    (items ++ [error_item j e itemIndex]) (S itemIndex)
              | Failed e' => Some (Thrown (Rethrown e'))
              end
            else Some (Thrown (throw_fromFile e itemIndex))
        end
    end.
Proof. reflexivity. Qed.

(** More fuel does not change a result. *)
Lemma fromFile_loop_mono (fuel : nat) :
  forall items itemIndex r,
    fromFile_loop H fuel items itemIndex = Some r ->
    fromFile_loop H (S fuel) items itemIndex = Some r.
Proof.
  induction fuel as [|fuel IH]; intros items i r E; [discriminate E|].
  rewrite fromFile_loop_S in E. rewrite fromFile_loop_S.
  destruct (nth_error items i) as [it|]; [|exact E].
  destruct (tryBlock H i it) as [[parsed|]|e]; auto.
  destruct (continueOnFail H); [|exact E].
  destruct (inputJson H i); auto.
Qed.

Lemma fromFile_loop_more (fuel extra : nat) (items : list item)
    (itemIndex : nat) (r : outcome) :
  fromFile_loop H fuel items itemIndex = Some r ->
  fromFile_loop H (extra + fuel) items itemIndex = Some r.
Proof.
  intros E. induction extra as [|extra IH]; [exact E|].
  apply fromFile_loop_mono. exact IH.
Qed.

Lemma tryBlock_skip (itemIndex : nat) (it : item) (name : jsstring) :
  binaryPropertyName H itemIndex = Done name ->
  has_binary name it = false ->
  tryBlock H itemIndex it = Done None.
Proof. intros En Eb. unfold tryBlock. rewrite En. simpl. rewrite Eb. reflexivity. Qed.

(** Over items that are all passed over, the loop runs to the end and
    leaves the items as they are. *)
Lemma fromFile_loop_skips (fuel : nat) :
  forall items itemIndex,
    skips H items itemIndex ->
    (List.length items - itemIndex < fuel)%nat ->
    fromFile_loop H fuel items itemIndex = Some (Returned items).
Proof.
  induction fuel as [|fuel IH]; intros items i Hs Hf; [lia|].
  rewrite fromFile_loop_S.
  destruct (nth_error items i) as [it|] eqn:Ei; [|reflexivity].
  rewrite (Hs i it (le_n i) Ei).
  apply IH.
  - intros j it' Hj. apply Hs. lia.
  - assert (i < List.length items)%nat
      by (apply nth_error_Some; congruence).
    lia.
Qed.

(** The loop passes over a run of [d] items in [d] steps. *)
Lemma fromFile_loop_skip_to (d : nat) :
  forall fuel items itemIndex,
    (forall j it, (itemIndex <= j < itemIndex + d)%nat ->
                  nth_error items j = Some it -> tryBlock H j it = Done None) ->
    (itemIndex + d <= List.length items)%nat ->
    fromFile_loop H (d + fuel) items itemIndex
    = fromFile_loop H fuel items (itemIndex + d).
Proof.
  induction d as [|d IH]; intros fuel items i Hs Hl.
  - rewrite Nat.add_0_r. reflexivity.
  - simpl plus. rewrite fromFile_loop_S.
    destruct (nth_error items i) as [it|] eqn:Ei.
    + rewrite (Hs i it) by (auto; lia).
      rewrite IH.
      * f_equal. lia.
      * intros j it' Hj. apply Hs. lia.
      * lia.
    + apply nth_error_None in Ei. lia.
Qed.

Lemma skips_made (items : list item) (itemIndex : nat) :
  (forall j, exists name, binaryPropertyName H j = Done name) ->
  Forall (fun it => binary it = None) items ->
  skips H items itemIndex.
Proof.
  intros Hn Hb j it _ Ej.
  destruct (Hn j) as [name En].
  apply (tryBlock_skip j it name En).
  apply nth_error_In in Ej. rewrite Forall_forall in Hb.
  unfold has_binary. rewrite (Hb _ Ej). reflexivity.
Qed.

(** A name that every object inherits counts as present on any [binary]
    object, so such an item is not passed over. *)
Example has_binary_inherited :
  has_binary (lit "toString") sample_file = true
  /\ has_binary (lit "toString") sample_plain = false
  /\ has_binary (lit "data") sample_file = true
  /\ has_binary (lit "other") sample_file = false.
Proof. repeat split. Qed.

Lemma execute_fromFile (fuel : nat) :
  operation H = lit "fromFile" ->
  execute H fuel = fromFile_loop H fuel (getInputData H) 0.
Proof. intros E. unfold execute. rewrite E. reflexivity. Qed.

(** X1: in ['fromFile'] mode, when no input item has the binary property
    asked for, neither as its own nor, the item having a [binary] object,
    as one inherited from [Object.prototype], [execute] returns the input
    items as they are. *)
Theorem execute_fromFile_no_binary :
  operation H = lit "fromFile" ->
  (forall j it,
      nth_error (getInputData H) j = Some it ->
      exists name, binaryPropertyName H j = Done name
                   /\ has_binary name it = false) ->
  forall fuel,
    (List.length (getInputData H) < fuel)%nat ->
    execute H fuel = Some (Returned (getInputData H)).
Proof.
  intros Eop Hno fuel Hf. rewrite (execute_fromFile fuel Eop).
  apply fromFile_loop_skips; [|lia].
  intros j it _ Ej. destruct (Hno j it Ej) as [name [En Eb]].
  exact (tryBlock_skip j it name En Eb).
Qed.

(** X2: in ['fromFile'] mode the first input item that has the binary
    property asked for (its own, or inherited from [Object.prototype] by its
    [binary] object) is the one that is parsed, and its records replace all
    the items: what [execute] returns is one item per record, each paired
    with the index of that input item; the other input items are gone. *)
Theorem execute_fromFile_first_binary
    (i : nat) (it : item) (name : jsstring) (cfg : value)
    (fields : list Field) (buf : list N) (records : list value) :
  operation H = lit "fromFile" ->
  (forall j, exists n, binaryPropertyName H j = Done n) ->
  (forall j it' n,
      (j < i)%nat -> nth_error (getInputData H) j = Some it' ->
      binaryPropertyName H j = Done n -> has_binary n it' = false) ->
  nth_error (getInputData H) i = Some it ->
  binaryPropertyName H i = Done name ->
  has_binary name it = true ->
  fieldsConfig H i = Done cfg ->
  getFields (lit "fromFile") cfg = Normal fields ->
  getBinaryDataBuffer H i name = Done buf ->
  parse H buf (parserOptions (options H) fields) = Done records ->
  forall fuel,
    (List.length (getInputData H) + List.length records < fuel)%nat ->
    execute H fuel = Some (Returned (List.map (parsed_item i) records)).
Proof.
  intros Eop Hn Hbefore Ei En Eb Ec Eg Ebuf Ep fuel Hf.
  rewrite (execute_fromFile fuel Eop).
  assert (Hi : (i < List.length (getInputData H))%nat)
    by (apply nth_error_Some; congruence).
  replace fuel with (i + S (fuel - i - 1))%nat by lia.
  rewrite fromFile_loop_skip_to.
  - simpl plus. rewrite fromFile_loop_S, Ei.
    assert (Et : tryBlock H i it = Done (Some records)).
    { unfold tryBlock. rewrite En. simpl. rewrite Eb. simpl.
      rewrite Ec. simpl. rewrite Eop, Eg. simpl. rewrite Ebuf. simpl.
      rewrite Ep. reflexivity. }
    rewrite Et. apply fromFile_loop_skips.
    + apply skips_made; [exact Hn|].
      apply Forall_forall. intros x Hx. apply in_map_iff in Hx.
      destruct Hx as [r [<- _]]. reflexivity.
    + rewrite length_map. lia.
  - intros j it' Hj Ej. destruct (Hn j) as [n Enj].
    apply (tryBlock_skip j it' n Enj).
    apply (Hbefore j it' n); auto; lia.
  - lia.
Qed.

(** X3: in ['fromFile'] mode without continue-on-fail, the first item whose
    processing fails ends [execute] with a throw and no items.  An error
    that has a [context] is thrown again with [context.itemIndex] set to
    the index of the item; any other error is wrapped in a
    NodeOperationError that carries the index. *)
Theorem execute_fromFile_throws (i : nat) (it : item) (e : js_error) :
  operation H = lit "fromFile" ->
  continueOnFail H = false ->
  (forall j it', (j < i)%nat -> nth_error (getInputData H) j = Some it' ->
                 tryBlock H j it' = Done None) ->
  nth_error (getInputData H) i = Some it ->
  tryBlock H i it = Failed e ->
  forall fuel,
    (i < fuel)%nat ->
    exists x,
      execute H fuel = Some (Thrown x)
      /\ (forall m ctx,
             e = FromHost m (Some ctx) ->
             x = Rethrown
                   (FromHost m
                      (Some (set (lit "itemIndex")
                               (VNumber (number_of_nat i)) ctx))))
      /\ ((forall m ctx, e <> FromHost m (Some ctx)) ->
          x = NodeOperationError e (Some i)).
Proof.
  intros Eop Ecof Hbefore Ei Et fuel Hf.
  exists (throw_fromFile e i). split; [|split].
  - rewrite (execute_fromFile fuel Eop).
    assert (Hi : (i < List.length (getInputData H))%nat)
      by (apply nth_error_Some; congruence).
    replace fuel with (i + S (fuel - i - 1))%nat by lia.
    rewrite fromFile_loop_skip_to.
    + simpl plus. rewrite fromFile_loop_S, Ei, Et, Ecof. reflexivity.
    + intros j it' Hj. apply Hbefore. lia.
    + lia.
  - intros m ctx ->. reflexivity.
  - intros Hno. destruct e as [e0|m [ctx|]]; try reflexivity.
    exfalso. apply (Hno m ctx). reflexivity.
Qed.

(** X4: in ['fromFile'] mode with continue-on-fail, when processing an
    item fails and the handler's read of
    [this.getInputData(itemIndex)[0].json] succeeds, the failure costs
    nothing but an added item: all other items being passed over,
    [execute] returns the input items followed by one error item that holds
    the json read, the error and the index of the failed item.  The read
    takes the item index for an input index; when it fails, X18 applies. *)
Theorem execute_fromFile_continue
    (i : nat) (it : item) (e : js_error) (j : value) :
  operation H = lit "fromFile" ->
  continueOnFail H = true ->
  nth_error (getInputData H) i = Some it ->
  tryBlock H i it = Failed e ->
  inputJson H i = Done j ->
  (forall k it',
      k <> i ->
      nth_error (getInputData H ++ [error_item j e i]) k = Some it' ->
      tryBlock H k it' = Done None) ->
  forall fuel,
    (List.length (getInputData H) + 1 < fuel)%nat ->
    execute H fuel = Some (Returned (getInputData H ++ [error_item j e i])).
Proof.
  intros Eop Ecof Ei Et Ej Hothers fuel Hf.
  rewrite (execute_fromFile fuel Eop).
  assert (Hi : (i < List.length (getInputData H))%nat)
    by (apply nth_error_Some; congruence).
  replace fuel with (i + S (fuel - i - 1))%nat by lia.
  rewrite fromFile_loop_skip_to.
  - simpl plus. rewrite fromFile_loop_S, Ei, Et, Ecof, Ej.
    apply fromFile_loop_skips.
    + intros k it' Hk. apply Hothers. lia.
    + rewrite length_app. simpl. lia.
  - intros k it' Hk Ek. apply Hothers; [lia|].
    rewrite nth_error_app1 by lia. exact Ek.
  - lia.
Qed.

Lemma loop_shape_kept (fuel : nat) :
  forall items itemIndex r,
    loop_shape H items ->
    fromFile_loop H fuel items itemIndex = Some (Returned r) ->
    loop_shape H r.
Proof.
  induction fuel as [|fuel IH]; intros items i r Hs E; [discriminate E|].
  rewrite fromFile_loop_S in E.
  destruct (nth_error items i) as [it|]; [|inversion E; subst; exact Hs].
  destruct (tryBlock H i it) as [[parsed|]|e].
  - apply (IH _ _ _) in E; [exact E|].
    exists []. split; [constructor|]. split; [reflexivity|].
    right. exists i, parsed. rewrite app_nil_r. reflexivity.
  - apply (IH _ _ _ Hs E).
  - destruct (continueOnFail H) eqn:Ecof; [|discriminate E].
    destruct (inputJson H i) as [j|e']; [|discriminate E].
    apply (IH _ _ _) in E; [exact E|].
    destruct Hs as [errs [Herrs [_ Hform]]].
    exists (errs ++ [error_item j e i]). split; [|split].
    + apply Forall_app. split; [exact Herrs|].
      constructor; [|constructor]. exists j, e, i. reflexivity.
    + intros X; congruence.
    + destruct Hform as [-> | [k [records ->]]].
      * left. rewrite app_assoc. reflexivity.
      * right. exists k, records. rewrite app_assoc. reflexivity.
Qed.

(** X5: whatever the engine and the library do, what [execute] returns in
    ['fromFile'] mode is either the input items or the records of one
    parsed item, never a mix of the two, followed by error items only;
    without continue-on-fail there are no error items. *)
Theorem execute_fromFile_shape (fuel : nat) (r : list item) :
  operation H = lit "fromFile" ->
  execute H fuel = Some (Returned r) ->
  exists errs,
    Forall is_error_item errs
    /\ (continueOnFail H = false -> errs = [])
    /\ (r = getInputData H ++ errs
        \/ exists itemIndex records,
             r = List.map (parsed_item itemIndex) records ++ errs).
Proof.
  intros Eop E. rewrite (execute_fromFile fuel Eop) in E.
  apply (loop_shape_kept fuel _ _ _) in E; [exact E|].
  exists []. split; [constructor|]. split; [reflexivity|].
  left. rewrite app_nil_r. reflexivity.
Qed.

Lemma execute_toFile (fuel : nat) :
  operation H = lit "toFile" ->
  execute H fuel = Some (toFile H (getInputData H)).
Proof. intros E. unfold execute. rewrite E. reflexivity. Qed.

(** X6: in ['toFile'] mode [execute] always ends.  When it returns, it
    returns either exactly one item, with an empty [json] and, under the
    binary property name, the data prepared from the text that [stringify]
    made of the [json] of all input items; or, with continue-on-fail, the
    input items followed by one error item. *)
Theorem execute_toFile_outcome (fuel : nat) :
  operation H = lit "toFile" ->
  exists r,
    execute H fuel = Some r
    /\ forall items',
        r = Returned items' ->
        (exists name cfg fields text data,
            binaryPropertyName H 0 = Done name
            /\ fieldsConfig H 0 = Done cfg
            /\ getFields (lit "toFile") cfg = Normal fields
            /\ stringify H (List.map json (getInputData H))
                 (stringifyOptions (options H) fields) = Done text
            /\ prepareBinaryData H text (get (options H) (lit "fileName"))
               = Done data
            /\ items' = [mkItem (VObject []) (Some [(name, data)]) None None])
        \/ (continueOnFail H = true
            /\ exists e,
                items' = getInputData H
                         ++ [mkItem (VObject []) None (Some e) None]).
Proof.
  intros Eop. exists (toFile H (getInputData H)).
  split; [apply execute_toFile; exact Eop|].
  intros items'. unfold toFile. rewrite Eop.
  destruct (binaryPropertyName H 0) as [name|e0]; [|intros E; discriminate E].
  destruct (fieldsConfig H 0) as [cfg|e0]; [|intros E; discriminate E].
  destruct (getFields (lit "toFile") cfg) as [fields|e0] eqn:Eg;
    [|intros E; discriminate E].
  destruct (stringify H _ _) as [text|e0] eqn:Es; simpl.
  - destruct (prepareBinaryData H text _) as [data|e1] eqn:Ed.
    + intros E; inversion E; subst. left.
      exists name, cfg, fields, text, data. repeat split; auto.
    + destruct (continueOnFail H); [|intros E; discriminate E].
      intros E; inversion E; subst. right. eauto.
  - destruct (continueOnFail H); [|intros E; discriminate E].
    intros E; inversion E; subst. right. eauto.
Qed.

(** X7: in ['toFile'] mode the schema is built outside the [try]: a
    [fields] parameter whose [field] is truthy and not an array makes
    [execute] throw the TypeError of [getFields] as it is, with
    continue-on-fail as well as without. *)
Theorem execute_toFile_bad_fields (name : jsstring) (o : object) (fuel : nat) :
  operation H = lit "toFile" ->
  binaryPropertyName H 0 = Done name ->
  fieldsConfig H 0 = Done (VObject o) ->
  ToBoolean (get o (lit "field")) = true ->
  (forall es, get o (lit "field") <> VArray es) ->
  execute H fuel = Some (Thrown (Rethrown (FromGetFields TypeError))).
Proof.
  intros Eop En Ec Ht Hna. rewrite (execute_toFile fuel Eop).
  unfold toFile. rewrite En, Ec, Eop.
  rewrite (@getFields_truthy_non_array (lit "toFile") o Ht Hna). reflexivity.
Qed.

(** X18: in ['fromFile'] mode with continue-on-fail, when the handler
    cannot read the input item it wants to copy into the error item, the
    error of that read is what [execute] throws; the error that made the
    item fail is lost and no items are returned. *)
Theorem execute_fromFile_handler_fails (i : nat) (it : item) (e e' : js_error) :
  operation H = lit "fromFile" ->
  continueOnFail H = true ->
  (forall j it', (j < i)%nat -> nth_error (getInputData H) j = Some it' ->
                 tryBlock H j it' = Done None) ->
  nth_error (getInputData H) i = Some it ->
  tryBlock H i it = Failed e ->
  inputJson H i = Failed e' ->
  forall fuel,
    (i < fuel)%nat ->
    execute H fuel = Some (Thrown (Rethrown e')).
Proof.
  intros Eop Ecof Hbefore Ei Et Ej fuel Hf.
  rewrite (execute_fromFile fuel Eop).
  assert (Hi : (i < List.length (getInputData H))%nat)
    by (apply nth_error_Some; congruence).
  replace fuel with (i + S (fuel - i - 1))%nat by lia.
  rewrite fromFile_loop_skip_to.
  - simpl plus. rewrite fromFile_loop_S, Ei, Et, Ecof, Ej. reflexivity.
  - intros j it' Hj. apply Hbefore. lia.
  - lia.
Qed.

End ExecuteFacts.

Lemma execute_fromFile_no_binary_witness :
  Node.execute
    (Node.sample_host (lit "fromFile") false
       [Node.sample_plain; Node.sample_plain] Node.sample_fields
       (Node.Done []) (Node.Done []))
    3
  = Some (Node.Returned [Node.sample_plain; Node.sample_plain]).
Proof.
  apply (execute_fromFile_no_binary
           (Node.sample_host (lit "fromFile") false
              [Node.sample_plain; Node.sample_plain] Node.sample_fields
              (Node.Done []) (Node.Done []))).
  - reflexivity.
  - intros j it E. exists (lit "data"). split; [reflexivity|].
    destruct j as [|[|[|j]]]; simpl in E; inversion E; reflexivity.
  - simpl. lia.
Defined.

Lemma execute_fromFile_first_binary_witness :
  Node.execute
    (Node.sample_host (lit "fromFile") false
       [Node.sample_plain; Node.sample_file; Node.sample_file]
       Node.sample_fields
       (Node.Done [VObject [(lit "id", VNumber (Finite false 42 0))];
                   VObject [(lit "id", VNumber (Finite false 7 0))]])
       (Node.Done []))
    6
  = Some (Node.Returned
            (List.map (Node.parsed_item 1)
               [VObject [(lit "id", VNumber (Finite false 42 0))];
                VObject [(lit "id", VNumber (Finite false 7 0))]])).
Proof.
  eapply (execute_fromFile_first_binary
            (Node.sample_host (lit "fromFile") false
               [Node.sample_plain; Node.sample_file; Node.sample_file]
               Node.sample_fields
               (Node.Done [VObject [(lit "id", VNumber (Finite false 42 0))];
                           VObject [(lit "id", VNumber (Finite false 7 0))]])
               (Node.Done []))
            1 Node.sample_file (lit "data")).
  - reflexivity.
  - intros j. exists (lit "data"). reflexivity.
  - intros j it' n Hj E En. destruct j as [|j]; [|lia].
    simpl in E, En. inversion E; inversion En; reflexivity.
  - reflexivity.
  - reflexivity.
  - reflexivity.
  - reflexivity.
  - reflexivity.
  - reflexivity.
  - reflexivity.
  - simpl. lia.
Defined.

Lemma execute_fromFile_throws_witness :
  exists x,
    Node.execute
      (Node.sample_host (lit "fromFile") false [Node.sample_file]
         Node.sample_fields
         (Node.Failed (Node.FromHost (lit "bad line") (Some []))) (Node.Done []))
      1
    = Some (Node.Thrown x)
    /\ (forall m ctx,
           Node.FromHost (lit "bad line") (Some []) = Node.FromHost m (Some ctx) ->
           x = Node.Rethrown
                 (Node.FromHost m
                    (Some (set (lit "itemIndex")
                             (VNumber (Node.number_of_nat 0)) ctx))))
    /\ ((forall m ctx,
            Node.FromHost (lit "bad line") (Some []) <> Node.FromHost m (Some ctx)) ->
        x = Node.NodeOperationError
              (Node.FromHost (lit "bad line") (Some [])) (Some 0%nat)).
Proof.
  apply (execute_fromFile_throws
           (Node.sample_host (lit "fromFile") false [Node.sample_file]
              Node.sample_fields
              (Node.Failed (Node.FromHost (lit "bad line") (Some [])))
              (Node.Done []))
           0 Node.sample_file).
  - reflexivity.
  - reflexivity.
  - intros j it' Hj. lia.
  - reflexivity.
  - reflexivity.
  - lia.
Defined.

Lemma execute_fromFile_continue_witness :
  Node.execute
    (Node.sample_host (lit "fromFile") true [Node.sample_file]
       Node.sample_fields
       (Node.Failed (Node.FromHost (lit "bad line") None)) (Node.Done []))
    3
  = Some (Node.Returned
            [Node.sample_file;
             Node.error_item (VObject [])
               (Node.FromHost (lit "bad line") None) 0]).
Proof.
  apply (execute_fromFile_continue
           (Node.sample_host (lit "fromFile") true [Node.sample_file]
              Node.sample_fields
              (Node.Failed (Node.FromHost (lit "bad line") None))
              (Node.Done []))
           0 Node.sample_file).
  - reflexivity.
  - reflexivity.
  - reflexivity.
  - reflexivity.
  - reflexivity.
  - intros k it' Hk E. destruct k as [|[|[|k]]]; try congruence;
      simpl in E; inversion E; reflexivity.
  - simpl. lia.
Defined.

Lemma execute_fromFile_shape_witness :
  exists errs,
    Forall Node.is_error_item errs
    /\ (false = false -> errs = [])
    /\ ([Node.parsed_item 0 (VObject [])] = [Node.sample_file] ++ errs
        \/ exists itemIndex records,
             [Node.parsed_item 0 (VObject [])]
             = List.map (Node.parsed_item itemIndex) records ++ errs).
Proof.
  apply (execute_fromFile_shape
           (Node.sample_host (lit "fromFile") false [Node.sample_file]
              Node.sample_fields (Node.Done [VObject []]) (Node.Done []))
           3 [Node.parsed_item 0 (VObject [])]).
  - reflexivity.
  - reflexivity.
Defined.

Lemma execute_toFile_outcome_witness :
  exists r,
    Node.execute
      (Node.sample_host (lit "toFile") false
         [Node.sample_plain; Node.sample_plain] Node.sample_fields
         (Node.Done []) (Node.Done (lit "0001")))
      0
    = Some r
    /\ r = Node.Returned
             [Node.mkItem (VObject [])
                (Some [(lit "data", VObject [(lit "data", VString (lit "0001"))])])
                None None].
Proof.
  destruct (execute_toFile_outcome
              (Node.sample_host (lit "toFile") false
                 [Node.sample_plain; Node.sample_plain] Node.sample_fields
                 (Node.Done []) (Node.Done (lit "0001")))
              0 eq_refl) as [r [E _]].
  exists r. split; [exact E|].
  vm_compute in E. inversion E. reflexivity.
Defined.

Lemma execute_toFile_bad_fields_witness :
  Node.execute
    (Node.sample_host (lit "toFile") true [Node.sample_plain]
       (VObject [(lit "field", VString (lit "x"))])
       (Node.Done []) (Node.Done []))
    0
  = Some (Node.Thrown (Node.Rethrown (Node.FromGetFields TypeError))).
Proof.
  apply (execute_toFile_bad_fields
           (Node.sample_host (lit "toFile") true [Node.sample_plain]
              (VObject [(lit "field", VString (lit "x"))])
              (Node.Done []) (Node.Done []))
           (lit "data") [(lit "field", VString (lit "x"))] 0).
  - reflexivity.
  - reflexivity.
  - reflexivity.
  - reflexivity.
  - intros es E. discriminate E.
Defined.

Lemma execute_fromFile_handler_fails_witness :
  Node.execute
    (Node.mkHost [Node.sample_file] (lit "fromFile") []
       (fun _ => Node.Done (lit "data"))
       (fun _ => Node.Done Node.sample_fields)
       (fun _ _ => Node.Failed (Node.FromHost (lit "no such file") None))
       (fun t _ => Node.Done (VString t))
       true
       (fun _ => Node.Failed (Node.FromHost (lit "no input") None))
       (fun _ _ => Node.Done [])
       (fun _ _ => Node.Done []))
    1
  = Some (Node.Thrown (Node.Rethrown (Node.FromHost (lit "no input") None))).
Proof.
  apply (execute_fromFile_handler_fails
           (Node.mkHost [Node.sample_file] (lit "fromFile") []
              (fun _ => Node.Done (lit "data"))
              (fun _ => Node.Done Node.sample_fields)
              (fun _ _ => Node.Failed (Node.FromHost (lit "no such file") None))
              (fun t _ => Node.Done (VString t))
              true
              (fun _ => Node.Failed (Node.FromHost (lit "no input") None))
              (fun _ _ => Node.Done [])
              (fun _ _ => Node.Done []))
           0 Node.sample_file (Node.FromHost (lit "no such file") None)).
  - reflexivity.
  - reflexivity.
  - intros j it' Hj. lia.
  - reflexivity.
  - reflexivity.
  - reflexivity.
  - lia.
Defined.

(** * More on the options handed to the codec *)

Section OptionExtras.

Variable options : object.
Variable fields : list Field.

(** X8: the [trim] handed to [parse] and to [stringify] is always one of
    [true], [false], ['left'] and ['right'], whatever [options.trim]
    holds; the strings ['both'] and ['none'] never reach the library. *)
Theorem trim_range :
  let t := get (parserOptions options fields) (lit "trim") in
  get (stringifyOptions options fields) (lit "trim") = t
  /\ (t = VBool true \/ t = VBool false
      \/ t = VString (lit "left") \/ t = VString (lit "right")).
Proof.
  intros t. unfold t. rewrite parserOptions_trim, stringifyOptions_trim.
  split; [reflexivity|].
  unfold trim, includes_left_right.
  destruct (strict_eq_str _ (lit "both")); [auto|].
  destruct (strict_eq_str _ (lit "none")); [auto|].
  destruct (is_string _); simpl; [|auto].
  destruct (strict_eq_str _ (lit "left")) eqn:El; simpl.
  - apply strict_eq_str_true in El. auto.
  - destruct (strict_eq_str _ (lit "right")) eqn:Er; [|auto].
    apply strict_eq_str_true in Er. auto.
Qed.

(** X9: every option other than [trim] and [fields] reaches [parse] as it
    is in [options], and every option other than [encoding], [pad], [trim]
    and [fields] reaches [stringify] as it is. *)
Theorem options_pass_through (k : jsstring) :
  k <> lit "trim" -> k <> lit "fields" ->
  get (parserOptions options fields) k = get options k
  /\ (k <> lit "encoding" -> k <> lit "pad" ->
      get (stringifyOptions options fields) k = get options k).
Proof.
  intros Nt Nf. split.
  - unfold parserOptions, spread.
    rewrite !get_set_other by congruence. reflexivity.
  - intros Ne Np. unfold stringifyOptions, spread.
    rewrite !get_set_other by congruence. reflexivity.
Qed.

(** X10: the [encoding] handed to [stringify] is [options.encoding] when
    that is truthy and ['utf8'] otherwise, so it is never falsy; [parse] is
    handed [options.encoding] as it is. *)
Theorem encoding_default :
  exists enc,
    get (stringifyOptions options fields) (lit "encoding") = enc
    /\ (ToBoolean (get options (lit "encoding")) = true
        -> enc = get options (lit "encoding"))
    /\ (ToBoolean (get options (lit "encoding")) = false
        -> enc = VString (lit "utf8"))
    /\ ToBoolean enc = true
    /\ get (parserOptions options fields) (lit "encoding")
       = get options (lit "encoding").
Proof.
  exists (js_or (get options (lit "encoding")) (fun _ => VString (lit "utf8"))).
  split.
  { unfold stringifyOptions.
    rewrite !get_set_other by discriminate. apply get_set_same. }
  unfold js_or.
  destruct (ToBoolean (get options (lit "encoding"))) eqn:T;
    repeat split; try congruence; try reflexivity; auto;
    unfold parserOptions, spread;
    rewrite !get_set_other by discriminate; reflexivity.
Qed.

End OptionExtras.

Lemma options_pass_through_witness :
  let options := [(lit "eol", VString (lit ";")); (lit "relax", VBool true);
                  (lit "trim", VString (lit "none"))] in
  get (parserOptions options []) (lit "eol") = get options (lit "eol")
  /\ (lit "eol" <> lit "encoding" -> lit "eol" <> lit "pad" ->
      get (stringifyOptions options []) (lit "eol") = get options (lit "eol")).
Proof.
  intros options.
  apply (options_pass_through options [] (lit "eol")); discriminate.
Defined.

(** * More on the schema *)

Section SchemaExtras.

Variable operation : jsstring.

Lemma buildField_throws_iff (e : value) :
  buildField operation e = Throw TypeError <-> nullish e.
Proof.
  unfold nullish.
  destruct e; simpl; split; intros E; auto;
    try discriminate E; destruct E as [E | E]; discriminate E.
Qed.

Lemma buildField_total (e : value) :
  ~ nullish e -> exists f, buildField operation e = Normal f.
Proof.
  intros N. destruct (buildField operation e) as [f|[]] eqn:E; [eauto|].
  exfalso. apply N. apply buildField_throws_iff. exact E.
Qed.

Lemma mapM_buildField_throws_iff (es : list value) :
  mapM (buildField operation) es = Throw TypeError <-> Exists nullish es.
Proof.
  induction es as [|e es IH]; simpl.
  - split; [discriminate | intros E; inversion E].
  - destruct (buildField operation e) as [f|[]] eqn:Ee; simpl.
    + assert (Ne : ~ nullish e).
      { intros N. apply buildField_throws_iff in N. congruence. }
      destruct (mapM (buildField operation) es) as [fs|[]]; simpl.
      * split; [discriminate|]. intros E. inversion E; subst; [tauto|].
        apply IH in H0. discriminate H0.
      * split; [|reflexivity]. intros _. apply Exists_cons_tl. apply IH.
        reflexivity.
    + split; [|reflexivity]. intros _. apply Exists_cons_hd.
      apply buildField_throws_iff. exact Ee.
Qed.

(** X11: on a configuration object [getFields] throws, a TypeError, in
    exactly two cases: [field] is truthy and not an array, or [field] is an
    array with an entry that is [undefined] or [null].  On every other
    configuration object it returns a schema. *)
Theorem getFields_throws_iff (o : object) :
  getFields operation (VObject o) = Throw TypeError
  <-> ToBoolean (get o (lit "field")) = true
      /\ (forall es, get o (lit "field") = VArray es -> Exists nullish es).
Proof.
  unfold getFields, js_or. simpl.
  destruct (ToBoolean (get o (lit "field"))) eqn:T.
  - destruct (get o (lit "field")) as [ | |b|n|s|es|o'|f]; simpl;
      try (split; [intros _; split; [reflexivity | intros es E; discriminate E]
                  | reflexivity]).
    rewrite mapM_buildField_throws_iff. split.
    + intros E. split; [reflexivity|]. intros es' E'. inversion E'; subst.
      exact E.
    + intros [_ E]. apply E. reflexivity.
  - simpl. split; [discriminate | intros [E _]; discriminate E].
Qed.

(** X12: for an operation that is neither ['fromFile'] nor ['toFile'],
    [getFields] still builds the schema, and its fields carry neither a
    cast nor an alignment. *)
Theorem getFields_other_operation (fieldConfig : value) (fs : list Field) :
  operation <> lit "fromFile" -> operation <> lit "toFile" ->
  getFields operation fieldConfig = Normal fs ->
  Forall (fun f => cast f = None /\ align f = VUndefined) fs.
Proof.
  intros N1 N2 E. apply str_eqb_neq in N1, N2.
  apply getFields_inv in E. destruct E as [entries F].
  induction F as [|e f es fs' Ef _ IH]; constructor; auto.
  unfold buildField in Ef. rewrite N1, N2 in Ef.
  destruct (GetV e (lit "property")); simpl in Ef; [|discriminate].
  destruct (GetV e (lit "width")); simpl in Ef; [|discriminate].
  destruct (GetV e (lit "align")); simpl in Ef; [|discriminate].
  destruct (GetV e (lit "dataType")); simpl in Ef; [|discriminate].
  inversion Ef. split; reflexivity.
Qed.

End SchemaExtras.

Lemma getFields_other_operation_witness :
  Forall (fun f => cast f = None /\ align f = VUndefined)
    [mkField (VString (lit "id")) (VNumber (Finite false 4 0)) None VUndefined].
Proof.
  apply (getFields_other_operation (lit "convert")
           (fieldConfig_of
              [VObject [ (lit "property", VString (lit "id"));
                         (lit "width", VNumber (Finite false 4 0));
                         (lit "dataType", VString (lit "integer"));
                         (lit "align", VString (lit "right")) ]])).
  - discriminate.
  - discriminate.
  - reflexivity.
Defined.

(** * More on the casts *)

Section CastExtras.

Ltac unit_arith :=
  unfold isHexDigit, isDecimalDigit, isBinaryDigit, isOctalDigit,
    isWhiteSpace in *;
  repeat rewrite ?andb_true_iff, ?orb_true_iff, ?andb_false_iff,
    ?orb_false_iff, ?N.eqb_eq, ?N.eqb_neq, ?N.leb_le, ?N.leb_gt in *;
  lia.

Lemma trimEnd_app_ws (x ws : jsstring) :
  WhiteSpace ws -> trimEnd (x ++ ws) = trimEnd x.
Proof.
  intros W. unfold trimEnd. rewrite rev_app_distr.
  rewrite (@trimStart_ws_app (rev ws) (rev x)) by (apply Forall_rev; exact W).
  reflexivity.
Qed.

Lemma TrimString_app_ws (s ws : jsstring) :
  WhiteSpace ws -> TrimString (s ++ ws) = TrimString s.
Proof.
  intros W. unfold TrimString. induction s as [|c r IH]; simpl.
  - rewrite (@trimStart_ws ws W). reflexivity.
  - destruct (isWhiteSpace c); [exact IH|].
    apply (@trimEnd_app_ws (c :: r) ws W).
Qed.

Lemma TrimString_ws_around (ws s ws' : jsstring) :
  WhiteSpace ws -> WhiteSpace ws' ->
  TrimString (ws ++ s ++ ws') = TrimString s.
Proof.
  intros W W'. rewrite <- (TrimString_app_ws s ws' W').
  unfold TrimString. rewrite (@trimStart_ws_app ws (s ++ ws') W). reflexivity.
Qed.

(** X13: white space in front of the text does not change what the
    Integer and Float casts give, and white space on either side does not
    change what the Number cast gives. *)
Theorem numeric_casts_ignore_white_space (ws s ws' : jsstring) :
  WhiteSpace ws -> WhiteSpace ws' ->
  apply_cast CastInteger (ws ++ s) = apply_cast CastInteger s
  /\ apply_cast CastFloat (ws ++ s) = apply_cast CastFloat s
  /\ apply_cast CastNumber (ws ++ s ++ ws') = apply_cast CastNumber s.
Proof.
  intros W W'. simpl apply_cast.
  unfold parseInt10, parseFloat, StringToNumber.
  rewrite (@trimStart_ws_app ws s W).
  rewrite (TrimString_ws_around ws s ws' W W').
  repeat split.
Qed.

(** X14: on a column that holds nothing but white space, the empty string
    included, the Number cast gives 0 while the Integer and the Float cast
    give NaN. *)
Theorem numeric_casts_on_blank (ws : jsstring) :
  WhiteSpace ws ->
  apply_cast CastNumber ws = Normal (VNumber (Finite false 0 0))
  /\ apply_cast CastInteger ws = Normal (VNumber NaN)
  /\ apply_cast CastFloat ws = Normal (VNumber NaN).
Proof.
  intros W. simpl apply_cast.
  unfold parseInt10, parseFloat, StringToNumber, TrimString, trimEnd.
  rewrite (@trimStart_ws ws W). repeat split.
Qed.

Lemma span_app_prefix (p : code_unit -> bool) (xs s : jsstring) :
  Forall (fun c => p c = true) xs ->
  span p (xs ++ s) = (xs ++ fst (span p s), snd (span p s)).
Proof.
  induction 1 as [|x xs Hx _ IH]; simpl.
  - destruct (span p s); reflexivity.
  - rewrite Hx, IH. reflexivity.
Qed.

Lemma digitsValue_zeros (n : nat) (ds : jsstring) :
  digitsValue 10 (zeros n ++ ds) = digitsValue 10 ds.
Proof.
  unfold digitsValue. rewrite fold_left_app. f_equal.
  unfold zeros. induction n as [|n IH]; simpl; [reflexivity | exact IH].
Qed.

Lemma parseInt10_digit_head (d : code_unit) (r : jsstring) :
  isDecimalDigit d = true ->
  parseInt10 (d :: r)
  = Finite false (digitsValue 10 (fst (span isDecimalDigit (d :: r)))) 0.
Proof.
  intros Hd. unfold parseInt10.
  rewrite (@trimStart_head d r (@digit_not_ws d (@decimal_is_hex d Hd))).
  rewrite (@strip_sign_unsigned d r (or_introl Hd)).
  destruct (@span_head isDecimalDigit d r Hd) as [a [b E]].
  rewrite E. reflexivity.
Qed.

Lemma parseInt10_digits_prefix (xs : jsstring) (d : code_unit) (r : jsstring) :
  Forall (fun c => isDecimalDigit c = true) xs ->
  isDecimalDigit d = true ->
  parseInt10 (xs ++ d :: r)
  = Finite false
      (digitsValue 10 (xs ++ fst (span isDecimalDigit (d :: r)))) 0.
Proof.
  intros F Hd. destruct xs as [|x xs].
  - apply (parseInt10_digit_head d r Hd).
  - assert (Hx : isDecimalDigit x = true) by (inversion F; assumption).
    change ((x :: xs) ++ d :: r) with (x :: (xs ++ d :: r)).
    rewrite (parseInt10_digit_head x (xs ++ d :: r) Hx).
    change (x :: (xs ++ d :: r)) with ((x :: xs) ++ d :: r).
    rewrite (span_app_prefix isDecimalDigit (x :: xs) (d :: r) F).
    reflexivity.
Qed.

(** X15: zeros in front of a run of digits do not change what the Integer
    cast gives: a zero-padded column reads as its number. *)
Theorem integer_cast_leading_zeros (n : nat) (d : code_unit) (r : jsstring) :
  isDecimalDigit d = true ->
  apply_cast CastInteger (zeros n ++ d :: r)
  = apply_cast CastInteger (d :: r).
Proof.
  intros Hd. unfold apply_cast.
  rewrite (parseInt10_digits_prefix (zeros n) d r).
  - rewrite digitsValue_zeros, (parseInt10_digit_head d r Hd). reflexivity.
  - apply Forall_forall. intros x Hx. apply repeat_spec in Hx. subst x.
    reflexivity.
  - exact Hd.
Qed.

Lemma scanNonDecimal_digits (s : jsstring) :
  Forall (fun c => isDecimalDigit c = true) s -> scanNonDecimal s = None.
Proof.
  intros F. destruct s as [|z [|p body]]; try reflexivity.
  unfold scanNonDecimal. destruct (negb (z =? 48)); [reflexivity|].
  destruct body as [|b body]; [reflexivity|].
  inversion F as [|? ? _ F']; subst. inversion F' as [|? ? Hp _]; subst.
  assert (E1 : (p =? 98) || (p =? 66) = false) by unit_arith.
  assert (E2 : (p =? 111) || (p =? 79) = false) by unit_arith.
  assert (E3 : (p =? 120) || (p =? 88) = false) by unit_arith.
  rewrite E1, E2, E3. reflexivity.
Qed.

Lemma scanUnsignedDecimal_digits (neg : bool) (ds : jsstring) :
  DecimalDigits ds ->
  scanUnsignedDecimal neg ds = Some (Finite neg (digitsValue 10 ds) 0, []).
Proof.
  intros D. destruct (@Digits_head isDecimalDigit ds D) as [d [r [-> Hd]]].
  destruct D as [_ F]. unfold scanUnsignedDecimal.
  rewrite starts_with_Infinity_None by unit_arith.
  rewrite <- (app_nil_r (d :: r)) at 1.
  rewrite (@span_exact isDecimalDigit (d :: r) [] F I). reflexivity.
Qed.

Lemma casts_on_digits (neg : bool) (s ds : jsstring) :
  DecimalDigits ds ->
  strip_sign s = (neg, ds) ->
  scanNonDecimal s = None ->
  solid s ->
  parseInt10 s = Finite neg (digitsValue 10 ds) 0
  /\ parseFloat s = Finite neg (digitsValue 10 ds) 0
  /\ StringToNumber s = Finite neg (digitsValue 10 ds) 0.
Proof.
  intros D Es En Ss.
  assert (T : trimStart s = s).
  { destruct Ss as [[c [r [-> Hc]]] _]. apply trimStart_head. exact Hc. }
  assert (Hsp : span isDecimalDigit ds = (ds, [])).
  { destruct D as [_ F]. rewrite <- (app_nil_r ds) at 1.
    apply (@span_exact isDecimalDigit ds [] F I). }
  assert (Hne : ds <> []) by (destruct D; assumption).
  split; [|split].
  - unfold parseInt10. rewrite T, Es, Hsp.
    destruct ds; [congruence | reflexivity].
  - unfold parseFloat, scanStrDecimalLiteral. rewrite T, Es.
    rewrite (scanUnsignedDecimal_digits neg ds D). reflexivity.
  - rewrite (@StringToNumber_literal s s).
    + rewrite En. unfold scanStrDecimalLiteral. rewrite Es.
      rewrite (scanUnsignedDecimal_digits neg ds D). reflexivity.
    + rewrite <- (app_nil_r s) at 1.
      apply (@TrimString_solid [] s []); [constructor | constructor | exact Ss].
    + destruct Ss as [[c [r [-> _]]] _]. discriminate.
Qed.

(** X16: on an optionally signed run of decimal digits the three numeric
    casts agree: Number, Float and Integer give the same number. *)
Theorem numeric_casts_agree_on_integers (s : jsstring) :
  SignedInteger s ->
  apply_cast CastNumber s = apply_cast CastInteger s
  /\ apply_cast CastFloat s = apply_cast CastInteger s.
Proof.
  intros Hs. pose proof (SignedInteger_solid Hs) as Ss.
  assert (X : exists neg ds,
             DecimalDigits ds /\ strip_sign s = (neg, ds)
             /\ scanNonDecimal s = None).
  { destruct Hs as [ds D | ds D | ds D].
    - exists false, ds. split; [exact D|]. split.
      + destruct (@Digits_head isDecimalDigit ds D) as [d [r [-> Hd]]].
        apply strip_sign_unsigned. auto.
      + apply scanNonDecimal_digits. destruct D; assumption.
    - exists false, ds. split; [exact D|]. split; [reflexivity|].
      destruct ds as [|p [|b body]]; reflexivity.
    - exists true, ds. split; [exact D|]. split; [reflexivity|].
      destruct ds as [|p [|b body]]; reflexivity. }
  destruct X as [neg [ds [D [Es En]]]].
  destruct (casts_on_digits neg s ds D Es En Ss) as [Ei [Ef En']].
  simpl apply_cast. rewrite Ei, Ef, En'. split; reflexivity.
Qed.

Lemma SignedInteger_StrDecimalLiteral (si : jsstring) :
  SignedInteger si -> StrDecimalLiteral si.
Proof.
  intros [ds D | ds D | ds D];
    [apply SDL_unsigned | apply SDL_plus | apply SDL_minus];
    rewrite <- (app_nil_r ds); apply SUDL_int; auto; apply opt_absent.
Qed.

(** X17: whatever text the Integer cast turns into a number, the Float cast
    turns into a number too. *)
Theorem integer_cast_implies_float_cast (v : jsstring) :
  apply_cast CastInteger v <> Normal (VNumber NaN) ->
  apply_cast CastFloat v <> Normal (VNumber NaN).
Proof.
  simpl apply_cast. intros Hi Hf.
  assert (Pi : parses_as CastInteger v).
  { apply parseInt10_sound. intros E. apply Hi. rewrite E. reflexivity. }
  destruct Pi as [ws [si [rest [W [Hsi E]]]]].
  assert (Pf : parses_as CastFloat v).
  { exists ws, si, rest. auto using SignedInteger_StrDecimalLiteral. }
  apply parseFloat_complete in Pf. apply Pf. congruence.
Qed.

End CastExtras.

Lemma numeric_casts_ignore_white_space_witness :
  apply_cast CastInteger (lit "  42") = apply_cast CastInteger (lit "42")
  /\ apply_cast CastFloat (lit "  42") = apply_cast CastFloat (lit "42")
  /\ apply_cast CastNumber (lit "  42 ") = apply_cast CastNumber (lit "42").
Proof.
  apply (numeric_casts_ignore_white_space (lit "  ") (lit "42") (lit " "));
    repeat constructor.
Defined.

Lemma numeric_casts_on_blank_witness :
  apply_cast CastNumber (lit "    ") = Normal (VNumber (Finite false 0 0))
  /\ apply_cast CastInteger (lit "    ") = Normal (VNumber NaN)
  /\ apply_cast CastFloat (lit "    ") = Normal (VNumber NaN).
Proof.
  apply (numeric_casts_on_blank (lit "    ")). repeat constructor.
Defined.

Lemma integer_cast_leading_zeros_witness :
  apply_cast CastInteger (lit "0042") = apply_cast CastInteger (lit "42").
Proof.
  apply (integer_cast_leading_zeros 2 52 (lit "2")). reflexivity.
Defined.

Lemma numeric_casts_agree_on_integers_witness :
  apply_cast CastNumber (lit "-42") = apply_cast CastInteger (lit "-42")
  /\ apply_cast CastFloat (lit "-42") = apply_cast CastInteger (lit "-42").
Proof.
  apply (numeric_casts_agree_on_integers (lit "-42")).
  apply (SI_minus (ds := lit "42")).
  split; [discriminate | repeat constructor].
Defined.

Lemma integer_cast_implies_float_cast_witness :
  apply_cast CastFloat (lit "12abc") <> Normal (VNumber NaN).
Proof.
  apply (integer_cast_implies_float_cast (lit "12abc")). discriminate.
Defined.
